(** * HR data cleaning and validation pipeline

    A shallow embedding of [src/pipeline.py]: the cleaning stages
    (imputation, de-duplication, type coercion, IQR outlier flags) and the
    rule-driven validation loop that builds the violation report.

    Modelling conventions.
    - A pandas cell is a [Value]: [VNull] is NaN/NaT, [VNum] a number
      (int64 and float64 cells are idealised as exact rationals), [VStr] a
      Python string.
    - A [DataFrame] keeps its column names in order and its rows as
      (index label, row) pairs; a row is a dictionary from column name to
      cell.  [pd.read_csv] yields the labels 0, 1, 2, ... and
      [drop_duplicates] keeps the labels of the surviving rows.
    - A column's dtype is read off its cells: a column holding at least one
      string is an object column, any other column is numeric.
    - A Python exception is the [None] of an [option]. *)

From Stdlib Require Import QArith Qround ZArith Ascii String List Bool.
From Stdlib Require Import Lia Lqa Sorted.
From stdpp Require Import base option list strings pretty gmap.

Open Scope string_scope.
Open Scope list_scope.

(** ** Cells

    A cell is missing (NaN), a number or a text.  Numbers are exact
    rationals, where pandas holds float64 or int64: what is proved of a
    computed number holds of the script where float64 computes it exactly.
    A column read as booleans is outside this model. *)

Inductive Value : Type :=
  | VNull
  | VNum (q : Q)
  | VStr (s : string).

Definition isnull (v : Value) : bool :=
  match v with VNull => true | _ => false end.

Definition is_str (v : Value) : bool :=
  match v with VStr _ => true | _ => false end.

Definition is_num (v : Value) : bool :=
  match v with VNum _ => true | _ => false end.

(** Equality as [duplicated] and [drop_duplicates] see it: NaN equals NaN,
    numbers are compared by value. *)
Definition value_eqb (a b : Value) : bool :=
  match a, b with
  | VNull, VNull => true
  | VNum p, VNum q => Qeq_bool p q
  | VStr s, VStr t => String.eqb s t
  | _, _ => false
  end.

Definition Qlt_bool (a b : Q) : bool := negb (Qle_bool b a).

(** ** Data frames *)

Abbreviation Row := (gmap string Value).

Record DataFrame : Type := mkDataFrame {
  columns : list string;
  rows : list (nat * Row)
}.

Definition cell (r : Row) (c : string) : Value := default VNull (r !! c).

(** [df.index] *)
Definition index (df : DataFrame) : list nat := map fst (rows df).

(** [df[c]] *)
Definition series (df : DataFrame) (c : string) : list Value :=
  map (fun lr => cell (snd lr) c) (rows df).

(** [c in df.columns] *)
Definition has_column (df : DataFrame) (c : string) : bool :=
  bool_decide (c ∈ columns df).

(** [df[c] = s]: an existing column is overwritten in place, a new one is
    appended after the others. *)
Definition assign (c : string) (s : list Value) (df : DataFrame) : DataFrame :=
  {| columns := if has_column df c then columns df else columns df ++ [c];
     rows := zip_with (fun lr v => (fst lr, <[c := v]> (snd lr))) (rows df) s |}.

(** [df.at[idx, c]] *)
Definition at_ (df : DataFrame) (idx : nat) (c : string) : Value :=
  match List.find (fun lr => Nat.eqb (fst lr) idx) (rows df) with
  | Some lr => cell (snd lr) c
  | None => VNull
  end.

(** [pd.read_csv] numbers the rows 0, 1, 2, ... *)
Definition read_csv (cols : list string) (rs : list Row) : DataFrame :=
  {| columns := cols; rows := combine (seq 0 (length rs)) rs |}.

(** [for c in cs: ...] where the body may raise. *)
Fixpoint for_each {S : Type} (body : string -> S -> option S)
    (cs : list string) (st : S) : option S :=
  match cs with
  | [] => Some st
  | c :: cs' =>
      match body c st with
      | Some st' => for_each body cs' st'
      | None => None
      end
  end.

(** ** Library conversions

    Python's float parser, [str] on a number and [pd.to_datetime] belong to
    the interpreter and to pandas; the pipeline is modelled over any choice
    of them. *)

(** A parsed date column: [datetime64[ns]] when [tz_aware] is false,
    [datetime64[ns, tz]] when it is true; a stamp counts time from the
    epoch and [None] is NaT. *)
Record Datetimes : Type := mkDatetimes {
  tz_aware : bool;
  stamps : list (option Z)
}.

(** [to_datetime s] is [pd.to_datetime(s, errors="coerce")] on a whole
    column: pandas infers one format for the column, so what a cell
    becomes depends on the cells around it; [None] is a call that
    raises. *)
Class Conversions : Type := {
  parse_float : string -> option Q;
  format_num : Q -> string;
  to_datetime : list Value -> option Datetimes
}.

(** ** 3) Missing values *)

Definition numeric_cols_initial : list string :=
  ["DistanceFromHome"; "HourlyRate"; "NumCompaniesWorked";
   "PercentSalaryHike"; "TotalWorkingYears"; "YearsAtCompany";
   "YearsSinceLastPromotion"; "YearsWithCurrManager"].

Definition text_cols : list string :=
  ["AgeGroup"; "Attrition"; "BusinessTravel"; "Department";
   "Education"; "EducationField"; "JobRole"; "MaritalStatus";
   "Over18"; "OverTime"].

Definition numeric_cols_remaining : list string :=
  ["DailyRate"; "EmployeeCount"; "EmployeeNumber";
   "EnvironmentSatisfaction"; "JobInvolvement"; "JobLevel";
   "JobSatisfaction"; "MonthlyIncome"; "MonthlyRate";
   "PerformanceRating"; "StandardHours"; "StockOptionLevel";
   "WorkLifeBalance"; "RelationshipSatisfaction"].

(** The non-null numbers of a column. *)
Fixpoint numbers (s : list Value) : list Q :=
  match s with
  | [] => []
  | VNum q :: s' => q :: numbers s'
  | _ :: s' => numbers s'
  end.

Definition Qsum (qs : list Q) : Q := fold_right Qplus 0%Q qs.

(** [s.mean()]: NaN cells are skipped, an all-NaN column has mean NaN, and
    an object column of strings raises [TypeError].  The mean is the exact
    one; pandas rounds it to float64. *)
Definition mean (s : list Value) : option Value :=
  if existsb is_str s then None
  else match numbers s with
       | [] => Some VNull
       | qs => Some (VNum (Qsum qs / inject_Z (Z.of_nat (length qs))))
       end.

(** [s.fillna(x)] *)
Definition fillna (x : Value) (s : list Value) : list Value :=
  map (fun v => if isnull v then x else v) s.

Definition impute_mean (col : string) (df : DataFrame) : option DataFrame :=
  if has_column df col then
    match mean (series df col) with
    | Some m => Some (assign col (fillna m (series df col)) df)
    | None => None
    end
  else Some df.

Definition impute_unknown (col : string) (df : DataFrame) : option DataFrame :=
  if has_column df col then
    Some (assign col (fillna (VStr "Unknown") (series df col)) df)
  else Some df.

Definition handle_missing (df : DataFrame) : option DataFrame :=
  match for_each impute_mean numeric_cols_initial df with
  | Some df1 =>
      match for_each impute_unknown text_cols df1 with
      | Some df2 => for_each impute_mean numeric_cols_remaining df2
      | None => None
      end
  | None => None
  end.

(** ** 4) Duplicates *)

(** [keep="first"]: a row is dropped when an earlier row has an equal key. *)
Fixpoint drop_dups {A : Type} (eqb : A -> A -> bool) (key : Row -> A)
    (seen : list A) (l : list (nat * Row)) : list (nat * Row) :=
  match l with
  | [] => []
  | lr :: l' =>
      if existsb (eqb (key (snd lr))) seen
      then drop_dups eqb key (key (snd lr) :: seen) l'
      else lr :: drop_dups eqb key (key (snd lr) :: seen) l'
  end.

Definition row_eqb (cs : list string) (r1 r2 : Row) : bool :=
  forallb (fun c => value_eqb (cell r1 c) (cell r2 c)) cs.

(** [df.drop_duplicates()] *)
Definition drop_duplicates (df : DataFrame) : DataFrame :=
  {| columns := columns df;
     rows := drop_dups (row_eqb (columns df)) (fun r => r) [] (rows df) |}.

(** [df.drop_duplicates(subset=[col])] *)
Definition drop_duplicates_subset (col : string) (df : DataFrame) : DataFrame :=
  {| columns := columns df;
     rows := drop_dups value_eqb (fun r => cell r col) [] (rows df) |}.

Definition id_cols : list string := ["EmpID"; "EmployeeNumber"].

Definition dedupe_id (col : string) (df : DataFrame) : option DataFrame :=
  if has_column df col then Some (drop_duplicates_subset col df) else Some df.

Definition remove_duplicates (df : DataFrame) : option DataFrame :=
  for_each dedupe_id id_cols (drop_duplicates df).

(** ** 5) Data types *)

Definition numeric_columns : list string :=
  ["Age"; "DailyRate"; "DistanceFromHome"; "Education"; "EmployeeCount";
   "EmployeeNumber"; "EnvironmentSatisfaction"; "HourlyRate";
   "JobInvolvement"; "JobLevel"; "JobSatisfaction"; "MonthlyIncome";
   "MonthlyRate"; "NumCompaniesWorked"; "PercentSalaryHike";
   "PerformanceRating"; "RelationshipSatisfaction"; "StandardHours";
   "StockOptionLevel"; "TotalWorkingYears"; "TrainingTimesLastYear";
   "WorkLifeBalance"; "YearsAtCompany"; "YearsInCurrentRole";
   "YearsSinceLastPromotion"; "YearsWithCurrManager"].

Definition categorical_columns : list string :=
  ["BusinessTravel"; "Department"; "EducationField"; "Gender";
   "JobRole"; "MaritalStatus"; "Over18"; "OverTime";
   "AgeGroup"; "SalarySlab"].

Section Cleaning.
Context `{Conversions}.

(** [pd.to_numeric(s, errors="coerce")] on one cell. *)
Definition to_numeric (v : Value) : Value :=
  match v with
  | VStr s => match parse_float s with Some q => VNum q | None => VNull end
  | _ => v
  end.

(** [s.astype(str)] on one cell: NaN becomes the string "nan", as in
    pandas before version 3; from version 3 on a missing cell stays
    missing. *)
Definition astype_str (v : Value) : Value :=
  match v with
  | VNull => VStr "nan"
  | VNum q => VStr (format_num q)
  | VStr s => VStr s
  end.

(** [s.astype("category")] changes the dtype and no cell. *)
Definition astype_category (v : Value) : Value := v.

(** [if col in df.columns: df[col] = f(df[col])] for a cell-wise [f]. *)
Definition convert (f : Value -> Value) (col : string) (df : DataFrame)
    : option DataFrame :=
  if has_column df col then Some (assign col (map f (series df col)) df)
  else Some df.

Definition fix_types (df : DataFrame) : option DataFrame :=
  match for_each (convert to_numeric) numeric_columns df with
  | Some df1 =>
      match for_each (convert astype_category) categorical_columns df1 with
      | Some df2 => convert astype_str "EmpID" df2
      | None => None
      end
  | None => None
  end.

End Cleaning.

(** ** 6) Outlier detection (IQR) *)

Fixpoint insert_sorted (x : Q) (l : list Q) : list Q :=
  match l with
  | [] => [x]
  | y :: l' => if Qle_bool x y then x :: l else y :: insert_sorted x l'
  end.

Definition sort_values (l : list Q) : list Q := fold_right insert_sorted [] l.

(** [s.quantile(p)] with pandas' default linear interpolation: NaN cells
    are skipped; [Some None] is the NaN of a column without numbers and
    [None] the [TypeError] of an object column.  The interpolation is the
    exact one; pandas computes it in float64. *)
Definition quantile (p : Q) (s : list Value) : option (option Q) :=
  if existsb is_str s then None
  else Some
    match sort_values (numbers s) with
    | [] => None
    | (x0 :: _) as xs =>
        let h := (inject_Z (Z.of_nat (length xs) - 1) * p)%Q in
        let lo := Z.to_nat (Qfloor h) in
        let a := nth lo xs x0 in
        let b := nth (S lo) xs a in
        Some (a + (b - a) * (h - inject_Z (Qfloor h)))%Q
    end.

(** [lower, upper = Q1 - 1.5 * IQR, Q3 + 1.5 * IQR]; no fence when the
    quartiles are NaN. *)
Definition fence (Q1 Q3 : option Q) : option (Q * Q) :=
  match Q1, Q3 with
  | Some q1, Some q3 =>
      let IQR := (q3 - q1)%Q in
      Some (q1 - (3 # 2) * IQR, q3 + (3 # 2) * IQR)%Q
  | _, _ => None
  end.

(** [((x < lower) | (x > upper)).astype(int)] on one cell: a comparison
    with NaN on either side is False. *)
Definition outlier_flag (f : option (Q * Q)) (v : Value) : Value :=
  match f, v with
  | Some (lower, upper), VNum x =>
      if Qlt_bool x lower || Qlt_bool upper x then VNum 1 else VNum 0
  | _, _ => VNum 0
  end.

Definition flag_col (column : string) : string :=
  String.append column "_outlier".

(** [None] is the [KeyError] of an absent column or the [TypeError] of
    [quantile]. *)
Definition detect_outliers_iqr (data : DataFrame) (column : string)
    : option DataFrame :=
  if has_column data column then
    match quantile (1 # 4) (series data column),
          quantile (3 # 4) (series data column) with
    | Some Q1, Some Q3 =>
        Some (assign (flag_col column)
                (map (outlier_flag (fence Q1 Q3)) (series data column)) data)
    | _, _ => None
    end
  else None.

Definition numeric_cols_outliers : list string :=
  ["DailyRate"; "DistanceFromHome"; "MonthlyIncome"; "MonthlyRate";
   "PercentSalaryHike"; "TotalWorkingYears"; "YearsWithCurrManager"].

Definition flag_outliers (df : DataFrame) : option DataFrame :=
  for_each (fun col d => if has_column d col then detect_outliers_iqr d col
                         else Some d)
           numeric_cols_outliers df.

(** ** 7) Validation rules *)

(** *** Regular expressions, matched by derivatives *)

Inductive Regex : Type :=
  | RNone
  | REps
  | RClass (p : ascii -> bool)
  | RSeq (r1 r2 : Regex)
  | RAlt (r1 r2 : Regex)
  | RStar (r : Regex).

Fixpoint nullable (r : Regex) : bool :=
  match r with
  | RNone => false
  | REps => true
  | RClass _ => false
  | RSeq r1 r2 => nullable r1 && nullable r2
  | RAlt r1 r2 => nullable r1 || nullable r2
  | RStar _ => true
  end.

Fixpoint deriv (a : ascii) (r : Regex) : Regex :=
  match r with
  | RNone => RNone
  | REps => RNone
  | RClass p => if p a then REps else RNone
  | RSeq r1 r2 =>
      if nullable r1 then RAlt (RSeq (deriv a r1) r2) (deriv a r2)
      else RSeq (deriv a r1) r2
  | RAlt r1 r2 => RAlt (deriv a r1) (deriv a r2)
  | RStar r1 => RSeq (deriv a r1) (RStar r1)
  end.

Fixpoint fullmatch (r : Regex) (s : string) : bool :=
  match s with
  | EmptyString => nullable r
  | String a s' => fullmatch (deriv a r) s'
  end.

Definition RPlus (r : Regex) : Regex := RSeq r (RStar r).
Definition RChar (c : ascii) : Regex := RClass (Ascii.eqb c).
Definition RNot (c : ascii) : Regex := RClass (fun a => negb (Ascii.eqb c a)).

(** [$] matches at the end of the string and before a final newline. *)
Definition RDollar : Regex := RAlt REps (RChar "010"%char).

(** [r"^[^@]+@[^@]+\.[^@]+$"] *)
Definition email_pattern : Regex :=
  RSeq (RPlus (RNot "@"%char))
    (RSeq (RChar "@"%char)
      (RSeq (RPlus (RNot "@"%char))
        (RSeq (RChar "."%char)
          (RSeq (RPlus (RNot "@"%char)) RDollar)))).

(** [str.lower], on ASCII letters. *)
Definition lower_ascii (a : ascii) : ascii :=
  let n := nat_of_ascii a in
  if (65 <=? n)%nat && (n <=? 90)%nat then ascii_of_nat (n + 32) else a.

Fixpoint lower (s : string) : string :=
  match s with
  | EmptyString => EmptyString
  | String a s' => String (lower_ascii a) (lower s')
  end.

(** [str.contains] of a pattern without metacharacters: substring search. *)
Fixpoint contains (needle hay : string) : bool :=
  String.prefix needle hay ||
  match hay with
  | EmptyString => false
  | String _ hay' => contains needle hay'
  end.

(** *** Rule predicates *)

(** A rule's predicate receives one column or the whole frame. *)
Inductive Arg : Type :=
  | ASeries (s : list Value)
  | AFrame (df : DataFrame).

(** One verdict per row; [None] is a null verdict. *)
Abbreviation Mask := (list (option bool)).

(** [keep="first"] duplicate marks of [s.duplicated()]. *)
Fixpoint duplicated_from (seen s : list Value) : list bool :=
  match s with
  | [] => []
  | v :: s' => existsb (value_eqb v) seen :: duplicated_from (v :: seen) s'
  end.

Definition duplicated (s : list Value) : list bool := duplicated_from [] s.

(** A comparison of a column with a number: False on NaN, [TypeError] on an
    object column of strings. *)
Definition compare (test : Q -> bool) (s : list Value) : option Mask :=
  if existsb is_str s then None
  else Some (map (fun v => match v with
                           | VNum q => Some (test q)
                           | _ => Some false
                           end) s).

Definition is_positive (s : list Value) : option Mask :=
  compare (fun q => Qlt_bool 0 q) s.

Definition in_range (s : list Value) (lo hi : Q) : option Mask :=
  compare (fun q => Qle_bool lo q && Qle_bool q hi) s.

Definition not_null (s : list Value) : option Mask :=
  Some (map (fun v => Some (negb (isnull v))) s).

Record Rule : Type := mkRule {
  rule_name : string;
  rule_func : Arg -> option Mask;
  cols : list string;
  message : string
}.

(** A predicate written for one column, or for the whole frame; the other
    kind of argument makes it raise. *)
Definition on_series (f : list Value -> option Mask) (a : Arg) : option Mask :=
  match a with ASeries s => f s | AFrame _ => None end.

Definition on_frame (f : DataFrame -> option Mask) (a : Arg) : option Mask :=
  match a with AFrame d => f d | ASeries _ => None end.

Section Rules.
Context `{Conversions}.

Definition match_regex (s : list Value) (pattern : Regex) : option Mask :=
  Some (map (fun v => match astype_str v with
                      | VStr x => Some (fullmatch pattern x)
                      | _ => Some false
                      end) s).

(** [<=] on timestamps: False when either side is NaT. *)
Definition le_datetime (a b : option Z) : bool :=
  match a, b with
  | Some x, Some y => Z.leb x y
  | _, _ => false
  end.

(** [<=] on two date columns, row by row; between a tz-aware and a
    tz-naive column it raises [TypeError]. *)
Definition le_datetimes (a b : Datetimes) : option Mask :=
  if Bool.eqb (tz_aware a) (tz_aware b) then
    Some (zip_with (fun x y => Some (le_datetime x y)) (stamps a) (stamps b))
  else None.

Definition hire_before_termination (df_ : DataFrame) : option Mask :=
  if has_column df_ "HireDate" && has_column df_ "TerminationDate" then
    match to_datetime (series df_ "HireDate"),
          to_datetime (series df_ "TerminationDate") with
    | Some hire, Some termination => le_datetimes hire termination
    | _, _ => None
    end
  else None.

(** The [.str] accessor raises [AttributeError] on a numeric column. *)
Definition str_accessor (s : list Value) : option (list (option string)) :=
  if negb (Nat.eqb (length s) 0) && negb (existsb is_str s) then None
  else Some (map (fun v => match v with VStr x => Some x | _ => None end) s).

Definition is_manager (x : option string) : bool :=
  match x with
  | Some role => contains "manager" (lower role)
  | None => false
  end.

Definition level_is_one (v : Value) : bool :=
  match v with VNum q => Qeq_bool q 1 | _ => false end.

Definition junior_not_manager (df_ : DataFrame) : option Mask :=
  if has_column df_ "JobLevel" && has_column df_ "JobRole" then
    match str_accessor (series df_ "JobRole") with
    | Some roles =>
        Some (zip_with (fun lvl role =>
                          Some (negb (level_is_one lvl && is_manager role)))
                       (series df_ "JobLevel") roles)
    | None => None
    end
  else None.

Definition empid_not_null : Rule :=
  mkRule "empid_not_null" (on_series not_null)
    ["EmpID"] "EmpID must not be null".

Definition empid_unique : Rule :=
  mkRule "empid_unique"
    (on_series (fun s => Some (map (fun d => Some (negb d)) (duplicated s))))
    ["EmpID"] "EmpID must be unique".

Definition age_positive : Rule :=
  mkRule "age_positive" (on_series is_positive)
    ["Age"] "Age must be positive".

Definition age_range : Rule :=
  mkRule "age_range" (on_series (fun s => in_range s 16 70))
    ["Age"] "Age must be 16–70".

Definition income_positive : Rule :=
  mkRule "income_positive" (on_series (compare (fun q => Qle_bool 0 q)))
    ["MonthlyIncome"] "Income cannot be negative".

Definition email_format : Rule :=
  mkRule "email_format" (on_series (fun s => match_regex s email_pattern))
    ["WorkEmail"] "Invalid email format".

Definition hire_before_termination_rule : Rule :=
  mkRule "hire_before_termination" (on_frame hire_before_termination)
    ["HireDate"; "TerminationDate"] "HireDate must be <= TerminationDate".

Definition junior_not_manager_rule : Rule :=
  mkRule "junior_not_manager" (on_frame junior_not_manager)
    ["JobLevel"; "JobRole"] "JobLevel 1 cannot have a manager role".

Definition rules : list Rule :=
  [ empid_not_null; empid_unique; age_positive; age_range; income_positive;
    email_format; hire_before_termination_rule; junior_not_manager_rule ].

End Rules.

(** *** The validation loop *)

Record Violation : Type := mkViolation {
  v_index : nat;
  v_EmpID : option Value;
  v_rule : string;
  v_columns : string;
  v_message : string;
  v_values : list (string * Value)
}.

(** The module-level state the loop works on. *)
Record State : Type := mkState {
  st_df : DataFrame;
  violations : list Violation
}.

(** [df[cols[0]] if len(cols)==1 else df] *)
Definition rule_arg (df : DataFrame) (cs : list string) : Arg :=
  match cs with
  | [c] => ASeries (series df c)
  | _ => AFrame df
  end.

(** [df.index[~mask.fillna(False)]]: a null verdict is filled with False
    before the negation; a mask of the wrong length raises [IndexError]. *)
Definition failed (df : DataFrame) (mask : Mask) : option (list nat) :=
  if Nat.eqb (length mask) (length (rows df)) then
    Some (map fst
            (List.filter (fun p => negb (default false (snd p)))
               (combine (index df) mask)))
  else None.

(** The body of the [try] block. *)
Definition evaluate (df : DataFrame) (r : Rule) : option (list nat) :=
  match rule_func r (rule_arg df (cols r)) with
  | Some mask => failed df mask
  | None => None
  end.

Definition violation (df : DataFrame) (r : Rule) (idx : nat) : Violation :=
  {| v_index := idx;
     v_EmpID := if has_column df "EmpID" then Some (at_ df idx "EmpID")
                else None;
     v_rule := rule_name r;
     v_columns := String.concat "," (cols r);
     v_message := message r;
     v_values := map (fun c => (c, at_ df idx c)) (cols r) |}.

(** [for idx in failed: violations.append({...})] *)
Definition record_failed (df : DataFrame) (r : Rule) (fl : list nat)
    (vs : list Violation) : list Violation :=
  fold_left (fun acc idx => acc ++ [violation df r idx]) fl vs.

(** One iteration of [for rule_name, rule_func, cols, message in rules]. *)
Definition check_rule (st : State) (r : Rule) : State :=
  if negb (forallb (has_column (st_df st)) (cols r)) then st
  else
    match evaluate (st_df st) r with
    | None => st
    | Some fl =>
        {| st_df := st_df st;
           violations := record_failed (st_df st) r fl (violations st) |}
    end.

Definition run_rules (rs : list Rule) (st : State) : State :=
  fold_left check_rule rs st.

(** The validation engine on a frame: the report of a fresh run. *)
Definition validate (df : DataFrame) (rs : list Rule) : list Violation :=
  violations (run_rules rs {| st_df := df; violations := [] |}).

(** ** The whole script *)

Record Output : Type := mkOutput {
  interim_csv : DataFrame;
  final_csv : DataFrame;
  validation_report : list Violation
}.

Section Pipeline.
Context `{Conversions}.

Definition clean (df : DataFrame) : option DataFrame :=
  match handle_missing df with
  | Some df3 =>
      match remove_duplicates df3 with
      | Some df4 =>
          match fix_types df4 with
          | Some df5 => flag_outliers df5
          | None => None
          end
      | None => None
      end
  | None => None
  end.

(** [None] is a run aborted by an exception; the three members of the
    output are what the three [to_csv] calls write. *)
Definition pipeline (raw : DataFrame) : option Output :=
  match clean raw with
  | Some df =>
      let st := run_rules rules {| st_df := df; violations := [] |} in
      Some {| interim_csv := df;
              final_csv := st_df st;
              validation_report := violations st |}
  | None => None
  end.

End Pipeline.

(** ** Sample conversions

    An instance for worked examples: decimal integers, fractions printed
    as [n/d], and columns of ISO dates [YYYY-MM-DD], each read as a count
    that grows with the date, without a time zone. *)

Definition digit_of (a : ascii) : option Z :=
  let n := nat_of_ascii a in
  if (48 <=? n)%nat && (n <=? 57)%nat then Some (Z.of_nat (n - 48)) else None.

Fixpoint digits_from (acc : Z) (s : string) : option Z :=
  match s with
  | EmptyString => Some acc
  | String a s' =>
      match digit_of a with
      | Some d => digits_from (10 * acc + d) s'
      | None => None
      end
  end.

Definition parse_nat (s : string) : option Z :=
  match s with
  | EmptyString => None
  | _ => digits_from 0 s
  end.

Definition iso_date (s : string) : option Z :=
  if Nat.eqb (String.length s) 10
     && String.eqb (substring 4 1 s) "-" && String.eqb (substring 7 1 s) "-"
  then
    match parse_nat (substring 0 4 s), parse_nat (substring 5 2 s),
          parse_nat (substring 8 2 s) with
    | Some y, Some m, Some d =>
        if (1 <=? m)%Z && (m <=? 12)%Z && (1 <=? d)%Z && (d <=? 31)%Z
        then Some (y * 372 + (m - 1) * 31 + (d - 1))%Z
        else None
    | _, _, _ => None
    end
  else None.

Definition format_int (z : Z) : string :=
  match z with
  | Z0 => "0"
  | Zpos p => pretty (Npos p)
  | Zneg p => String.append "-" (pretty (Npos p))
  end.

Definition sample_format (q : Q) : string :=
  match Qden (Qred q) with
  | xH => format_int (Qnum (Qred q))
  | d => String.append (format_int (Qnum (Qred q)))
           (String.append "/" (pretty (Npos d)))
  end.

#[export] Instance sample_conversions : Conversions :=
  {| parse_float := fun s => option_map inject_Z (parse_nat s);
     format_num := sample_format;
     to_datetime := fun s =>
       Some {| tz_aware := false;
               stamps := map (fun v => match v with
                                       | VStr x => iso_date x
                                       | _ => None
                                       end) s |} |}.

(** ** Derived notions used to state the properties *)

(** The records one rule contributes to the report. *)
Definition rule_violations (df : DataFrame) (r : Rule) : list Violation :=
  if forallb (has_column df) (cols r) then
    match evaluate df r with
    | Some fl => map (violation df r) fl
    | None => []
    end
  else [].

(** The mask of a rule that is evaluated: its columns are present, its
    predicate returns, and the mask indexes the frame. *)
Definition verdicts (df : DataFrame) (r : Rule) : option Mask :=
  if forallb (has_column df) (cols r) then
    match rule_func r (rule_arg df (cols r)) with
    | Some mask =>
        if Nat.eqb (length mask) (length (rows df)) then Some mask else None
    | None => None
    end
  else None.

(** A verdict other than an explicit True. *)
Definition not_true (v : option bool) : bool :=
  match v with Some true => false | _ => true end.

(** An explicit False verdict. *)
Definition explicit_false (v : option bool) : bool :=
  match v with Some false => true | _ => false end.

(** The labels, in row order, of the rows whose verdict satisfies [f]. *)
Definition labels_where (f : option bool -> bool) (idx : list nat)
    (mask : Mask) : list nat :=
  map fst (List.filter (fun p => f (snd p)) (combine idx mask)).

Definition count_where (f : option bool -> bool) (mask : Mask) : nat :=
  length (List.filter f mask).

(** The records of the report that carry a given rule name. *)
Definition records_of (name : string) (report : list Violation)
    : list Violation :=
  List.filter (fun v => String.eqb (v_rule v) name) report.

(** The report holds a record of rule [name] for the row labelled [idx]. *)
Definition reported (report : list Violation) (name : string) (idx : nat)
    : Prop :=
  exists v, In v report /\ v_rule v = name /\ v_index v = idx.

(** A stage that keeps the rows and their labels, keeps every column it
    found, adds columns only under names in [P], and leaves the cells of
    the columns outside [P] as they were. *)
Definition untouched (P : string -> Prop) (d d' : DataFrame) : Prop :=
  index d' = index d /\
  (forall c, ~ P c -> series d' c = series d c) /\
  (forall c, has_column d c = true -> has_column d' c = true) /\
  (forall c, ~ P c -> has_column d' c = true -> has_column d c = true).

(** The cells of one column, each with the label of its row. *)
Definition labelled (c : string) (df : DataFrame) : list (nat * Value) :=
  map (fun lr => (fst lr, cell (snd lr) c)) (rows df).

(** No cell of the column equals an earlier one. *)
Definition distinct_values (s : list Value) : Prop :=
  ForallOrdPairs (fun v w => value_eqb w v = false) s.

(** A number outside [16, 70]. *)
Definition out_of_range (v : Value) : bool :=
  match v with
  | VNum q => negb (Qle_bool 16 q && Qle_bool q 70)
  | _ => false
  end.

(** [str] tells apart the cells that [drop_duplicates] tells apart.  A
    column read by [pd.read_csv] is numeric or holds strings, and the
    string "nan" is read as NaN, so this holds of every such column as
    long as [str] gives different numbers different texts. *)
Definition str_faithful `{Conversions} (s : list Value) : bool :=
  forallb (fun v =>
    forallb (fun w =>
      implb (value_eqb (astype_str w) (astype_str v)) (value_eqb w v)) s) s.

(** Closed facts about the column lists and rule names, by evaluation. *)
Ltac by_decide := apply (bool_decide_unpack _); vm_compute; exact I.

Ltac by_decide_in := apply list_elem_of_In; by_decide.

Ltac not_listed :=
  let Hin := fresh "Hin" in
  intros Hin; apply list_elem_of_In in Hin; revert Hin; by_decide.

(** ** Data for worked examples *)

Definition row_of (l : list (string * Value)) : Row := list_to_map l.

(** Three employees, the second a repeat of the first, the third under
    age. *)
Definition staff : DataFrame :=
  read_csv ["EmpID"; "Age"]
    [ row_of [("EmpID", VStr "A"); ("Age", VNum 30)];
      row_of [("EmpID", VStr "A"); ("Age", VNum 40)];
      row_of [("EmpID", VStr "B"); ("Age", VNum 15)] ].

(** An [Age] column that could not be read as numbers. *)
Definition staff_text_age : DataFrame :=
  read_csv ["EmpID"; "Age"]
    [ row_of [("EmpID", VStr "A"); ("Age", VStr "thirty")];
      row_of [("EmpID", VStr "A"); ("Age", VNum 40)] ].

(** A user-supplied rule in the style of
    [lambda s: s.str.contains("Sales")]: on an object column the verdict of
    a missing cell is null. *)
Definition str_contains (needle : string) (s : list Value) : option Mask :=
  match str_accessor s with
  | Some xs => Some (map (option_map (contains needle)) xs)
  | None => None
  end.

Definition in_sales : Rule :=
  mkRule "in_sales" (on_series (str_contains "Sales"))
    ["Department"] "Department must be Sales".

Definition depts : DataFrame :=
  read_csv ["Department"; "Age"]
    [ row_of [("Department", VStr "Sales"); ("Age", VNum 30)];
      row_of [("Department", VNull); ("Age", VNum 71)];
      row_of [("Department", VStr "Research"); ("Age", VNum 45)] ].

(** Hire and termination dates: in order, reversed, equal, and with no
    termination date. *)
Definition tenure : DataFrame :=
  read_csv ["HireDate"; "TerminationDate"]
    [ row_of [("HireDate", VStr "2019-01-01");
              ("TerminationDate", VStr "2020-01-01")];
      row_of [("HireDate", VStr "2020-01-01");
              ("TerminationDate", VStr "2019-01-01")];
      row_of [("HireDate", VStr "2020-01-01");
              ("TerminationDate", VStr "2020-01-01")];
      row_of [("HireDate", VStr "2020-01-01"); ("TerminationDate", VNull)] ].

(** Work e-mails: well-formed, without a dot, and missing. *)
Definition contacts : DataFrame :=
  read_csv ["EmpID"; "WorkEmail"]
    [ row_of [("EmpID", VStr "A"); ("WorkEmail", VStr "a@b.com")];
      row_of [("EmpID", VStr "B"); ("WorkEmail", VStr "a@b")];
      row_of [("EmpID", VStr "C"); ("WorkEmail", VNull)] ].

(** A frame that already carries a column named like the flag column. *)
Definition rates : DataFrame :=
  read_csv ["DailyRate"; "DailyRate_outlier"]
    [ row_of [("DailyRate", VNum 100); ("DailyRate_outlier", VStr "low")];
      row_of [("DailyRate", VNum 110); ("DailyRate_outlier", VStr "low")];
      row_of [("DailyRate", VNull); ("DailyRate_outlier", VStr "none")];
      row_of [("DailyRate", VNum 120); ("DailyRate_outlier", VStr "low")];
      row_of [("DailyRate", VNum 130); ("DailyRate_outlier", VStr "low")];
      row_of [("DailyRate", VNum 900); ("DailyRate_outlier", VStr "high")] ].

(** A record without an employee identifier. *)
Definition missing_id : DataFrame :=
  read_csv ["EmpID"; "Age"]
    [ row_of [("EmpID", VStr "E1"); ("Age", VNum 30)];
      row_of [("EmpID", VNull); ("Age", VNum 40)] ].

(** Three employees, the second a repeat of the first and under age. *)
Definition staff_repeat_under_age : DataFrame :=
  read_csv ["EmpID"; "Age"]
    [ row_of [("EmpID", VStr "A"); ("Age", VNum 30)];
      row_of [("EmpID", VStr "A"); ("Age", VNum 15)];
      row_of [("EmpID", VStr "B"); ("Age", VNum 40)] ].

(** Ages around the bounds of [age_range]. *)
Definition ages : DataFrame :=
  read_csv ["Age"]
    [ row_of [("Age", VNum 15)]; row_of [("Age", VNum 16)];
      row_of [("Age", VNum 70)]; row_of [("Age", VNum 71)] ].

(** ** More frames for worked examples *)

(** Job levels and roles: a junior manager, a senior manager, a junior
    analyst, and a junior with no role on file. *)
Definition jobs : DataFrame :=
  read_csv ["JobLevel"; "JobRole"]
    [ row_of [("JobLevel", VNum 1); ("JobRole", VStr "Sales Manager")];
      row_of [("JobLevel", VNum 3); ("JobRole", VStr "Manager")];
      row_of [("JobLevel", VNum 1); ("JobRole", VStr "Analyst")];
      row_of [("JobLevel", VNum 1); ("JobRole", VNull)] ].

(** Ages with a gap: one missing, one negative. *)
Definition ages_with_gap : DataFrame :=
  read_csv ["Age"]
    [ row_of [("Age", VNum 30)]; row_of [("Age", VNull)];
      row_of [("Age", VNum (-5))]; row_of [("Age", VNum 80)] ].

(** Monthly incomes: positive, zero, negative and missing. *)
Definition incomes : DataFrame :=
  read_csv ["MonthlyIncome"]
    [ row_of [("MonthlyIncome", VNum 5000)]; row_of [("MonthlyIncome", VNum 0)];
      row_of [("MonthlyIncome", VNum (-1))]; row_of [("MonthlyIncome", VNull)] ].

(** Job roles held as numeric codes. *)
Definition coded_jobs : DataFrame :=
  read_csv ["JobLevel"; "JobRole"]
    [ row_of [("JobLevel", VNum 1); ("JobRole", VNum 7)];
      row_of [("JobLevel", VNum 2); ("JobRole", VNum 8)] ].

(** ** What a regular expression matches

    The strings of a pattern, given directly; [fullmatch] is checked
    against it. *)
Inductive Matches : Regex -> string -> Prop :=
  | MEps : Matches REps EmptyString
  | MClass p a : p a = true -> Matches (RClass p) (String a EmptyString)
  | MSeq r1 r2 s1 s2 :
      Matches r1 s1 -> Matches r2 s2 -> Matches (RSeq r1 r2) (s1 +:+ s2)
  | MAltL r1 r2 s : Matches r1 s -> Matches (RAlt r1 r2) s
  | MAltR r1 r2 s : Matches r2 s -> Matches (RAlt r1 r2) s
  | MStarNil r : Matches (RStar r) EmptyString
  | MStarApp r s1 s2 :
      Matches r s1 -> Matches (RStar r) s2 -> Matches (RStar r) (s1 +:+ s2).

(** A non-empty text without "@". *)
Fixpoint no_at (s : string) : bool :=
  match s with
  | EmptyString => true
  | String a s' => negb (Ascii.eqb "@"%char a) && no_at s'
  end.

Definition plain (s : string) : Prop := s <> EmptyString /\ no_at s = true.

(** No row has a key equal to the key of an earlier row. *)
Definition distinct_by {A : Type} (eqb : A -> A -> bool) (key : Row -> A)
    (l : list (nat * Row)) : Prop :=
  ForallOrdPairs (fun x y => eqb (key (snd y)) (key (snd x)) = false) l.

(** Two employees entered twice, once with the same number under another
    identifier. *)
Definition roster : DataFrame :=
  read_csv ["EmpID"; "EmployeeNumber"; "Age"]
    [ row_of [("EmpID", VStr "A"); ("EmployeeNumber", VNum 1); ("Age", VNum 30)];
      row_of [("EmpID", VStr "A"); ("EmployeeNumber", VNum 1); ("Age", VNum 30)];
      row_of [("EmpID", VStr "B"); ("EmployeeNumber", VNum 2); ("Age", VNum 41)];
      row_of [("EmpID", VStr "C"); ("EmployeeNumber", VNum 2); ("Age", VNum 52)];
      row_of [("EmpID", VStr "B"); ("EmployeeNumber", VNum 3); ("Age", VNum 41)] ].

(** Identifiers without employee numbers, one entered twice. *)
Definition badges : DataFrame :=
  read_csv ["EmpID"; "Age"]
    [ row_of [("EmpID", VStr "A"); ("Age", VNum 30)];
      row_of [("EmpID", VStr "B"); ("Age", VNum 41)];
      row_of [("EmpID", VStr "A"); ("Age", VNum 33)] ].

(** ** Column updates

    The loops of sections 3 and 5 all have the shape
    [if col in df.columns: df[col] = update(df[col])]. *)

(** [body] rewrites a present column with [upd] and skips an absent one;
    [upd] keeps the length of the column and raises where [body] does. *)
Definition column_step (body : string -> DataFrame -> option DataFrame)
    (upd : list Value -> option (list Value)) : Prop :=
  (forall col d,
     body col d =
     if has_column d col then
       match upd (series d col) with
       | Some s => Some (assign col s d)
       | None => None
       end
     else Some d) /\
  (forall s s', upd s = Some s' -> length s' = length s).

(** Every row holds a cell under the column name. *)
Definition has_cells (c : string) (d : DataFrame) : Prop :=
  Forall (fun lr : nat * Row => is_Some (snd lr !! c)) (rows d).

(** [s.fillna(s.mean())] *)
Definition fill_with_mean (s : list Value) : option (list Value) :=
  match mean s with
  | Some m => Some (fillna m s)
  | None => None
  end.

(** The gaps of a column. *)
Definition nulls (s : list Value) : nat := length (List.filter isnull s).

(** Hourly rates with two gaps, departments with one. *)
Definition payroll : DataFrame :=
  read_csv ["HourlyRate"; "Department"; "EmpID"]
    [ row_of [("HourlyRate", VNum 40); ("Department", VStr "Sales");
              ("EmpID", VStr "A")];
      row_of [("HourlyRate", VNull); ("Department", VNull);
              ("EmpID", VStr "B")];
      row_of [("HourlyRate", VNum 50); ("Department", VStr "Research");
              ("EmpID", VStr "C")];
      row_of [("HourlyRate", VNull); ("Department", VStr "Sales");
              ("EmpID", VStr "D")] ].

(** Education levels, one of them not on file. *)
Definition schooling : DataFrame :=
  read_csv ["EmpID"; "Education"]
    [ row_of [("EmpID", VStr "A"); ("Education", VNum 3)];
      row_of [("EmpID", VStr "B"); ("Education", VNull)];
      row_of [("EmpID", VStr "C"); ("Education", VNum 2)] ].

(** Daily rates, one of them entered as a text. *)
Definition unread_rates : DataFrame :=
  read_csv ["EmpID"; "DailyRate"]
    [ row_of [("EmpID", VStr "A"); ("DailyRate", VNum 100)];
      row_of [("EmpID", VStr "B"); ("DailyRate", VStr "n/a")] ].

(** ** Whole numbers

    Numbers are exact rationals here and float64 in pandas.  The two agree
    wherever float64 holds every value of a computation exactly. *)

(** A whole number of magnitude at most 2^40. *)
Definition small_whole (q : Q) : bool :=
  Qeq_bool q (inject_Z (Qfloor q)) &&
  Qle_bool (- inject_Z (2 ^ 40)) q && Qle_bool q (inject_Z (2 ^ 40)).



(** * Properties *)

(** ** The validation loop in closed form *)

Lemma record_failed_app df r fl vs :
  record_failed df r fl vs = vs ++ map (violation df r) fl.
Proof.
  unfold record_failed. revert vs.
  induction fl as [|idx fl IH]; intros vs; simpl.
  - by rewrite app_nil_r.
  - rewrite IH. by rewrite <- app_assoc.
Qed.

Lemma check_rule_spec st r :
  check_rule st r =
  {| st_df := st_df st;
     violations := violations st ++ rule_violations (st_df st) r |}.
Proof.
  unfold check_rule, rule_violations. destruct st as [df vs]; simpl.
  destruct (forallb (has_column df) (cols r)); simpl.
  - destruct (evaluate df r) as [fl|].
    + by rewrite record_failed_app.
    + by rewrite app_nil_r.
  - by rewrite app_nil_r.
Qed.

Lemma run_rules_spec rs st :
  run_rules rs st =
  {| st_df := st_df st;
     violations := violations st ++ flat_map (rule_violations (st_df st)) rs |}.
Proof.
  unfold run_rules. revert st.
  induction rs as [|r rs IH]; intros st; simpl.
  - destruct st; simpl. by rewrite app_nil_r.
  - rewrite IH, check_rule_spec. simpl. by rewrite <- app_assoc.
Qed.

Lemma run_rules_df rs st : st_df (run_rules rs st) = st_df st.
Proof. by rewrite run_rules_spec. Qed.

Lemma validate_spec df rs : validate df rs = flat_map (rule_violations df) rs.
Proof. unfold validate. by rewrite run_rules_spec. Qed.

(** The report over a rule list put together from two lists is the report
    over the first followed by the report over the second: no rule affects
    what another reports. *)
Lemma validate_app df rs1 rs2 :
  validate df (rs1 ++ rs2) = validate df rs1 ++ validate df rs2.
Proof. rewrite !validate_spec. apply flat_map_app. Qed.

Lemma rule_violations_rule df r v :
  In v (rule_violations df r) -> v_rule v = rule_name r.
Proof.
  unfold rule_violations.
  destruct (forallb _ _); [|intros []].
  destruct (evaluate df r) as [fl|]; [|intros []].
  intros Hin. apply in_map_iff in Hin as (idx & <- & _). reflexivity.
Qed.

(** ** Skipped rules *)

Lemma check_rule_skip_run st r before after :
  (forall st', st_df st' = st_df st -> check_rule st' r = st') ->
  run_rules (before ++ r :: after) st = run_rules (before ++ after) st.
Proof.
  intros Hskip. unfold run_rules. rewrite !fold_left_app. simpl.
  rewrite Hskip; [reflexivity|]. apply run_rules_df.
Qed.

Lemma check_rule_raises st r :
  rule_func r (rule_arg (st_df st) (cols r)) = None -> check_rule st r = st.
Proof.
  intros Hraise. unfold check_rule, evaluate. rewrite Hraise.
  by destruct (negb _).
Qed.

Lemma check_rule_missing st r c :
  c ∈ cols r -> c ∉ columns (st_df st) -> check_rule st r = st.
Proof.
  intros Hc Hnot. unfold check_rule.
  destruct (forallb (has_column (st_df st)) (cols r)) eqn:Hall; [|done].
  rewrite forallb_forall in Hall.
  apply list_elem_of_In in Hc. apply Hall in Hc.
  unfold has_column in Hc. apply bool_decide_eq_true in Hc. contradiction.
Qed.

(** C6: a rule whose predicate raises adds no record, the loop goes on, and
    the run ends in the state it would reach were the rule not declared. *)
Theorem raising_rule_is_skipped (st : State) (r : Rule)
    (before after : list Rule) :
  rule_func r (rule_arg (st_df st) (cols r)) = None ->
  check_rule st r = st /\
  run_rules (before ++ r :: after) st = run_rules (before ++ after) st.
Proof.
  intros Hraise. split.
  - by apply check_rule_raises.
  - apply check_rule_skip_run. intros st' Hdf.
    apply check_rule_raises. by rewrite Hdf.
Qed.

Lemma raising_rule_is_skipped_witness :
  rule_func age_positive (rule_arg staff_text_age (cols age_positive)) = None /\
  check_rule (mkState staff_text_age []) age_positive
    = mkState staff_text_age [] /\
  run_rules ([empid_not_null; empid_unique] ++ age_positive :: [email_format])
            (mkState staff_text_age [])
    = run_rules ([empid_not_null; empid_unique] ++ [email_format])
                (mkState staff_text_age []).
Proof.
  split; [vm_compute; reflexivity|].
  apply (raising_rule_is_skipped (mkState staff_text_age []) age_positive).
  vm_compute. reflexivity.
Defined.

(** C8: a rule with a required column that the dataset lacks adds no
    record and raises nothing, and the run ends in the state it would reach
    were the rule not declared. *)
Theorem missing_column_rule_is_skipped (st : State) (r : Rule) (c : string)
    (before after : list Rule) :
  c ∈ cols r -> c ∉ columns (st_df st) ->
  check_rule st r = st /\
  run_rules (before ++ r :: after) st = run_rules (before ++ after) st.
Proof.
  intros Hc Hnot. split.
  - by eapply check_rule_missing.
  - apply check_rule_skip_run. intros st' Hdf.
    eapply check_rule_missing; [exact Hc|]. by rewrite Hdf.
Qed.

Lemma missing_column_rule_is_skipped_witness :
  check_rule (mkState staff []) email_format = mkState staff [] /\
  run_rules ([empid_unique] ++ email_format :: [age_range]) (mkState staff [])
    = run_rules ([empid_unique] ++ [age_range]) (mkState staff []).
Proof.
  apply (missing_column_rule_is_skipped (mkState staff []) email_format
           "WorkEmail").
  - left.
  - intros Hin. apply list_elem_of_In in Hin. simpl in Hin.
    destruct Hin as [Heq|[Heq|[]]]; discriminate Heq.
Defined.

(** ** The dataset is not touched by validation *)

(** C9: the frame written as the final dataset is the frame written as the
    interim dataset; the validation loop leaves every row, column and cell
    as it found them. *)
Theorem validation_preserves_dataset `{Conversions} (raw : DataFrame)
    (out : Output) :
  pipeline raw = Some out -> final_csv out = interim_csv out.
Proof.
  unfold pipeline. destruct (clean raw) as [df|]; [|discriminate].
  intros Hout. apply Some_inj in Hout. rewrite <- Hout.
  cbv zeta. cbn [final_csv interim_csv]. apply run_rules_df.
Qed.

Lemma validation_preserves_dataset_witness :
  exists out, pipeline staff = Some out /\ final_csv out = interim_csv out.
Proof.
  eexists. split.
  - vm_compute. reflexivity.
  - apply (validation_preserves_dataset staff). vm_compute. reflexivity.
Defined.

(** ** Which rows a rule reports *)

Lemma not_true_fillna v : negb (default false v) = not_true v.
Proof. by destruct v as [[]|]. Qed.

Lemma not_true_iff v : not_true v = true <-> v <> Some true.
Proof. destruct v as [[]|]; simpl; split; congruence. Qed.

Lemma failed_labels df mask :
  length mask = length (rows df) ->
  failed df mask = Some (labels_where not_true (index df) mask).
Proof.
  intros Hlen. unfold failed, labels_where.
  rewrite Hlen, Nat.eqb_refl. do 2 f_equal.
  apply filter_ext. intros [l v]. apply not_true_fillna.
Qed.

Lemma verdicts_length df r mask :
  verdicts df r = Some mask -> length mask = length (rows df).
Proof.
  unfold verdicts. destruct (forallb _ _); [|discriminate].
  destruct (rule_func r _) as [m|]; [|discriminate].
  destruct (Nat.eqb (length m) (length (rows df))) eqn:Hlen; [|discriminate].
  intros [= <-]. by apply Nat.eqb_eq.
Qed.

Lemma rule_violations_verdicts df r :
  rule_violations df r =
  match verdicts df r with
  | Some mask => map (violation df r) (labels_where not_true (index df) mask)
  | None => []
  end.
Proof.
  unfold rule_violations, verdicts, evaluate.
  destruct (forallb _ _); [|reflexivity].
  destruct (rule_func r _) as [m|]; [|reflexivity].
  destruct (Nat.eqb (length m) (length (rows df))) eqn:Hlen.
  - apply Nat.eqb_eq in Hlen. by rewrite failed_labels.
  - unfold failed. by rewrite Hlen.
Qed.

Lemma labels_where_length f idx mask :
  length idx = length mask ->
  length (labels_where f idx mask) = count_where f mask.
Proof.
  unfold labels_where, count_where. rewrite length_map. revert mask.
  induction idx as [|l idx IH]; intros [|v mask] Hlen; simpl in *;
    try discriminate; [reflexivity|].
  destruct (f v); simpl; rewrite IH; auto.
Qed.

Lemma labels_where_subset f idx mask l :
  In l (labels_where f idx mask) -> In l idx.
Proof.
  unfold labels_where. intros Hin.
  apply in_map_iff in Hin as ([l' v] & <- & Hin).
  apply filter_In in Hin as [Hin _]. by apply in_combine_l in Hin.
Qed.

(** A row whose verdict satisfies [f] is among the labels. *)
Lemma labels_where_intro f (idx : list nat) (mask : Mask) i l v :
  idx !! i = Some l -> mask !! i = Some v -> f v = true ->
  In l (labels_where f idx mask).
Proof.
  unfold labels_where. revert mask i.
  induction idx as [|a idx IH]; intros [|w mask] [|i] Hl Hv Hf;
    simpl in *; try discriminate.
  - injection Hl as ->. injection Hv as ->. rewrite Hf. by left.
  - destruct (f w); [right|]; eapply IH; eauto.
Qed.

(** With distinct labels, membership is decided by the row's own verdict. *)
Lemma labels_where_in f (idx : list nat) (mask : Mask) i l v :
  NoDup idx -> idx !! i = Some l -> mask !! i = Some v ->
  (In l (labels_where f idx mask) <-> f v = true).
Proof.
  intros Hnd Hl Hv. split; [|by eapply labels_where_intro].
  revert mask i Hl Hv.
  induction Hnd as [|a idx Ha Hnd IH]; intros [|w mask] [|i] Hl Hv Hin;
    simpl in *; try discriminate.
  - injection Hl as ->. injection Hv as ->.
    destruct (f v) eqn:Hf; [reflexivity|]. exfalso. apply Ha.
    apply list_elem_of_In. apply (labels_where_subset f idx mask).
    unfold labels_where in *. simpl in Hin. by rewrite Hf in Hin.
  - eapply IH; eauto. unfold labels_where in *. simpl in Hin.
    destruct (f w); [|exact Hin]. destruct Hin as [Heq|Hin]; [|exact Hin].
    simpl in Heq. subst a. exfalso. apply Ha.
    eapply list_elem_of_lookup_2. exact Hl.
Qed.

Lemma map_index_violation df r fl : map v_index (map (violation df r) fl) = fl.
Proof. rewrite map_map. simpl. apply map_id. Qed.

Lemma lookup_map {A B : Type} (f : A -> B) (l : list A) (i : nat) :
  map f l !! i = option_map f (l !! i).
Proof.
  revert i. induction l as [|x l IH]; intros [|i]; simpl; auto.
Qed.

Lemma verdicts_evaluated df r mask :
  forallb (has_column df) (cols r) = true ->
  rule_func r (rule_arg df (cols r)) = Some mask ->
  length mask = length (rows df) ->
  verdicts df r = Some mask.
Proof.
  intros Hc Hf Hlen. unfold verdicts.
  by rewrite Hc, Hf, Hlen, Nat.eqb_refl.
Qed.

Lemma validate_one df r : validate df [r] = rule_violations df r.
Proof. rewrite validate_spec. simpl. apply app_nil_r. Qed.

(** C1 (amended): for a rule that is evaluated (its columns are present
    and its predicate returns one verdict per row), a row is reported
    whenever its verdict is not an explicit True, so a null verdict is
    reported like an explicit False; with distinct row labels, a row whose
    verdict is an explicit True is not reported. *)
Theorem verdict_not_true_is_reported (df : DataFrame) (r : Rule)
    (mask : Mask) (i l : nat) (v : option bool) :
  forallb (has_column df) (cols r) = true ->
  rule_func r (rule_arg df (cols r)) = Some mask ->
  length mask = length (rows df) ->
  index df !! i = Some l ->
  mask !! i = Some v ->
  (v <> Some true -> In l (map v_index (validate df [r]))) /\
  (NoDup (index df) -> v = Some true ->
   ~ In l (map v_index (validate df [r]))).
Proof.
  intros Hc Hf Hlen Hl Hv.
  rewrite validate_one, rule_violations_verdicts,
    (verdicts_evaluated df r mask Hc Hf Hlen), map_index_violation.
  split.
  - intros Hnt. eapply labels_where_intro; eauto. by apply not_true_iff.
  - intros Hnd -> Hin.
    apply (labels_where_in not_true _ _ _ _ _ Hnd Hl Hv) in Hin.
    discriminate Hin.
Qed.

Lemma verdict_not_true_is_reported_witness :
  (None <> Some true -> In 1 (map v_index (validate depts [in_sales]))) /\
  (NoDup (index depts) -> None = Some true ->
   ~ In 1 (map v_index (validate depts [in_sales]))).
Proof.
  apply (verdict_not_true_is_reported depts in_sales
           [Some true; None; Some false] 1 1 None).
  - vm_compute. reflexivity.
  - vm_compute. reflexivity.
  - vm_compute. reflexivity.
  - vm_compute. reflexivity.
  - vm_compute. reflexivity.
Defined.

(** C1, as stated, fails: the second row of [depts] has a null verdict
    under [in_sales], and the report holds a record for it. *)
Lemma null_verdict_counterexample :
  rule_func in_sales (rule_arg depts (cols in_sales))
    = Some [Some true; None; Some false] /\
  map v_index (validate depts [in_sales]) = [1; 2] /\
  reported (validate depts [in_sales]) "in_sales" 1.
Proof.
  split; [vm_compute; reflexivity|].
  split; [vm_compute; reflexivity|].
  exists (violation depts in_sales 1). split; [|split].
  - vm_compute. left. reflexivity.
  - reflexivity.
  - reflexivity.
Qed.

(** C7 (amended): the report is the concatenation, in declaration order,
    of each evaluated rule's records, one per row whose verdict is not an
    explicit True, in row order; its length is the sum over the evaluated
    rules of the number of such rows. *)
Theorem report_is_rule_major (df : DataFrame) (rs : list Rule) :
  validate df rs =
    flat_map (fun r =>
                match verdicts df r with
                | Some mask =>
                    map (violation df r)
                        (labels_where not_true (index df) mask)
                | None => []
                end) rs /\
  length (validate df rs) =
    list_sum (map (fun r =>
                     match verdicts df r with
                     | Some mask => count_where not_true mask
                     | None => 0
                     end) rs).
Proof.
  rewrite validate_spec. split.
  - induction rs as [|r rs IH]; simpl; [reflexivity|].
    by rewrite IH, rule_violations_verdicts.
  - induction rs as [|r rs IH]; simpl; [reflexivity|].
    rewrite length_app, IH. f_equal.
    rewrite rule_violations_verdicts.
    destruct (verdicts df r) as [mask|] eqn:Hmask; [|reflexivity].
    rewrite length_map. apply labels_where_length.
    unfold index. rewrite length_map. symmetry.
    by eapply verdicts_length.
Qed.

(** C7, as stated, fails: on [depts] the report has three records while
    only two verdicts are an explicit False. *)
Lemma explicit_false_count_counterexample :
  length (validate depts [age_range; in_sales]) = 3 /\
  list_sum (map (fun r =>
                   match verdicts depts r with
                   | Some mask => count_where explicit_false mask
                   | None => 0
                   end) [age_range; in_sales]) = 2.
Proof. split; vm_compute; reflexivity. Qed.

(** ** The records of one built-in rule *)

Lemma records_of_app name a b :
  records_of name (a ++ b) = records_of name a ++ records_of name b.
Proof. apply List.filter_app. Qed.

Lemma records_of_same df r :
  records_of (rule_name r) (rule_violations df r) = rule_violations df r.
Proof.
  unfold records_of. apply List.forallb_filter_id, forallb_forall.
  intros v Hin. apply String.eqb_eq. by eapply rule_violations_rule.
Qed.

Lemma records_of_other df r name :
  rule_name r <> name -> records_of name (rule_violations df r) = [].
Proof.
  intros Hne. unfold records_of.
  rewrite (List.filter_ext_in _ (fun _ => false)).
  - apply List.filter_false.
  - intros v Hin. apply String.eqb_neq.
    by rewrite (rule_violations_rule df r v Hin).
Qed.

Lemma records_of_validate df rs r :
  NoDup (map rule_name rs) -> In r rs ->
  records_of (rule_name r) (validate df rs) = rule_violations df r.
Proof.
  rewrite validate_spec.
  induction rs as [|r' rs IH]; intros Hnd Hin; [destruct Hin|].
  simpl in *. apply NoDup_cons in Hnd as [Hfresh Hnd].
  rewrite records_of_app. destruct Hin as [->|Hin].
  - rewrite records_of_same.
    assert (Hrest : records_of (rule_name r)
                      (flat_map (rule_violations df) rs) = []).
    { clear IH Hnd. induction rs as [|r2 rs IH]; simpl; [reflexivity|].
      rewrite records_of_app, IH.
      - rewrite records_of_other; [reflexivity|].
        intros Heq. apply Hfresh. simpl. rewrite Heq. left.
      - intros Hin. apply Hfresh. simpl. by right. }
    by rewrite Hrest, app_nil_r.
  - rewrite records_of_other, IH; auto.
    intros Heq. apply Hfresh. rewrite Heq.
    apply list_elem_of_In, in_map. exact Hin.
Qed.

Lemma rules_names_NoDup `{Conversions} : NoDup (map rule_name rules).
Proof. apply (bool_decide_unpack _). vm_compute. exact I. Qed.

Lemma has_column_true df c : c ∈ columns df -> has_column df c = true.
Proof. intros Hc. by apply bool_decide_eq_true. Qed.

Lemma index_lookup df i l (r : Row) :
  rows df !! i = Some (l, r) -> index df !! i = Some l.
Proof. intros Hr. unfold index. by rewrite lookup_map, Hr. Qed.

Lemma series_lookup df c i l (r : Row) :
  rows df !! i = Some (l, r) -> series df c !! i = Some (cell r c).
Proof. intros Hr. unfold series. by rewrite lookup_map, Hr. Qed.

Lemma series_length df c : length (series df c) = length (rows df).
Proof. apply length_map. Qed.

Lemma index_length df : length (index df) = length (rows df).
Proof. apply length_map. Qed.

(** ** [email_format] *)

Section BuiltinRules.
Context `{Conversions}.

Lemma verdicts_email_format df :
  "WorkEmail" ∈ columns df ->
  verdicts df email_format =
  Some (map (fun v => match astype_str v with
                      | VStr x => Some (fullmatch email_pattern x)
                      | _ => Some false
                      end) (series df "WorkEmail")).
Proof.
  intros Hc. unfold verdicts, email_format.
  cbn [cols rule_func forallb rule_arg on_series].
  rewrite (has_column_true _ _ Hc). cbn [andb]. unfold match_regex.
  by rewrite length_map, series_length, Nat.eqb_refl.
Qed.

(** C10: a row whose WorkEmail is missing gets an [email_format] record:
    the cell is rendered as the string "nan", which does not match the
    pattern. *)
Theorem missing_email_is_reported (df : DataFrame) (i l : nat) (r : Row) :
  "WorkEmail" ∈ columns df ->
  rows df !! i = Some (l, r) ->
  cell r "WorkEmail" = VNull ->
  astype_str (cell r "WorkEmail") = VStr "nan" /\
  fullmatch email_pattern "nan" = false /\
  reported (validate df rules) "email_format" l.
Proof.
  intros Hc Hr Hnull. split; [by rewrite Hnull|]. split; [reflexivity|].
  exists (violation df email_format l). split; [|split; reflexivity].
  rewrite validate_spec. apply in_flat_map.
  exists email_format. split; [simpl; tauto|].
  rewrite rule_violations_verdicts, (verdicts_email_format df Hc).
  apply in_map.
  eapply labels_where_intro.
  - by eapply index_lookup.
  - rewrite lookup_map. erewrite series_lookup by exact Hr.
    rewrite Hnull. reflexivity.
  - reflexivity.
Qed.

End BuiltinRules.

Lemma missing_email_is_reported_witness :
  astype_str (cell (row_of [("EmpID", VStr "C"); ("WorkEmail", VNull)])
                "WorkEmail") = VStr "nan" /\
  fullmatch email_pattern "nan" = false /\
  reported (validate contacts rules) "email_format" 2.
Proof.
  apply (missing_email_is_reported contacts 2 2
           (row_of [("EmpID", VStr "C"); ("WorkEmail", VNull)])).
  - right. left.
  - vm_compute. reflexivity.
  - vm_compute. reflexivity.
Defined.

(** ** [hire_before_termination] *)

Lemma labels_where_rows (f : option bool -> bool)
    (g : nat * Row -> option bool) (l : list (nat * Row)) :
  labels_where f (map fst l) (map g l)
  = map fst (List.filter (fun lr => f (g lr)) l).
Proof.
  unfold labels_where.
  induction l as [|lr l IH]; simpl; [reflexivity|].
  destruct (f (g lr)); simpl; by rewrite IH.
Qed.

Lemma labels_where_dates idx (hs ts : list (option Z)) :
  labels_where not_true idx
    (zip_with (fun x y => Some (le_datetime x y)) hs ts)
  = map fst
      (List.filter
         (fun p => match snd p with
                   | (Some h, Some t) => (t <? h)%Z
                   | _ => true
                   end) (combine idx (combine hs ts))).
Proof.
  unfold labels_where. revert hs ts.
  induction idx as [|l idx IH]; intros [|x hs] [|y ts];
    try reflexivity.
  specialize (IH hs ts).
  cbn [zip_with combine List.filter snd].
  destruct x as [h|], y as [t|]; cbn [le_datetime not_true map fst];
    try (by rewrite IH).
  rewrite Z.ltb_antisym.
  destruct (h <=? t)%Z; cbn [negb map fst]; by rewrite IH.
Qed.

Lemma rule_violations_raises df r :
  rule_func r (rule_arg df (cols r)) = None -> rule_violations df r = [].
Proof.
  intros Hf. rewrite rule_violations_verdicts. unfold verdicts.
  rewrite Hf. by destruct (forallb _ _).
Qed.

Section HireDates.
Context `{Conversions}.

(** C2 (amended): both date columns are parsed as whole columns by
    [pd.to_datetime], each with the format pandas infers for it.  When
    both calls return and the parsed columns are both tz-naive or both
    tz-aware, the rows reported by [hire_before_termination] are, in row
    order, exactly those where a parsed date is NaT (missing, or not
    parsable in its column) or the parsed HireDate is strictly after the
    parsed TerminationDate; equal dates pass.  When a call raises, or one
    parsed column is tz-aware and the other tz-naive, the comparison
    raises and the rule is skipped without a record. *)
Theorem hire_before_termination_reports (df : DataFrame) :
  "HireDate" ∈ columns df -> "TerminationDate" ∈ columns df ->
  match to_datetime (series df "HireDate"),
        to_datetime (series df "TerminationDate") with
  | Some hire, Some termination =>
      length (stamps hire) = length (rows df) ->
      length (stamps termination) = length (rows df) ->
      if Bool.eqb (tz_aware hire) (tz_aware termination) then
        map v_index
          (records_of "hire_before_termination" (validate df rules)) =
        map fst
          (List.filter
             (fun p => match snd p with
                       | (Some h, Some t) => (t <? h)%Z
                       | _ => true
                       end)
             (combine (index df)
                (combine (stamps hire) (stamps termination))))
      else records_of "hire_before_termination" (validate df rules) = []
  | _, _ => records_of "hire_before_termination" (validate df rules) = []
  end.
Proof.
  intros Hh Ht.
  change "hire_before_termination"
    with (rule_name hire_before_termination_rule).
  rewrite records_of_validate;
    [|apply rules_names_NoDup|cbn [rules In]; tauto].
  assert (Hf : rule_func hire_before_termination_rule
                 (rule_arg df (cols hire_before_termination_rule))
               = match to_datetime (series df "HireDate"),
                       to_datetime (series df "TerminationDate") with
                 | Some hire, Some termination =>
                     le_datetimes hire termination
                 | _, _ => None
                 end).
  { cbn [hire_before_termination_rule cols rule_func rule_arg on_frame].
    unfold hire_before_termination.
    by rewrite (has_column_true _ _ Hh), (has_column_true _ _ Ht). }
  destruct (to_datetime (series df "HireDate")) as [hire|];
    [|by apply rule_violations_raises].
  destruct (to_datetime (series df "TerminationDate")) as [termination|];
    [|by apply rule_violations_raises].
  intros Lh Lt. unfold le_datetimes in Hf.
  destruct (Bool.eqb (tz_aware hire) (tz_aware termination));
    [|by apply rule_violations_raises].
  assert (Hc : forallb (has_column df) (cols hire_before_termination_rule)
               = true).
  { cbn [hire_before_termination_rule cols forallb].
    by rewrite (has_column_true _ _ Hh), (has_column_true _ _ Ht). }
  rewrite rule_violations_verdicts.
  rewrite (verdicts_evaluated df hire_before_termination_rule _ Hc Hf).
  - rewrite map_index_violation. apply labels_where_dates.
  - rewrite length_zip_with. lia.
Qed.

End HireDates.

Lemma hire_before_termination_reports_witness :
  match to_datetime (series tenure "HireDate"),
        to_datetime (series tenure "TerminationDate") with
  | Some hire, Some termination =>
      length (stamps hire) = length (rows tenure) ->
      length (stamps termination) = length (rows tenure) ->
      if Bool.eqb (tz_aware hire) (tz_aware termination) then
        map v_index
          (records_of "hire_before_termination" (validate tenure rules)) =
        map fst
          (List.filter
             (fun p => match snd p with
                       | (Some h, Some t) => (t <? h)%Z
                       | _ => true
                       end)
             (combine (index tenure)
                (combine (stamps hire) (stamps termination))))
      else records_of "hire_before_termination" (validate tenure rules) = []
  | _, _ =>
      records_of "hire_before_termination" (validate tenure rules) = []
  end.
Proof.
  apply (hire_before_termination_reports tenure).
  - left.
  - right. left.
Defined.

(** C2, as stated, fails: the fourth row of [tenure] has no termination
    date, so it is not a row where both dates parse, and it is reported;
    the row with equal dates is not. *)
Lemma unparsable_date_counterexample :
  series tenure "TerminationDate" !! 3 = Some VNull /\
  (exists termination,
     to_datetime (series tenure "TerminationDate") = Some termination /\
     stamps termination !! 3 = Some None) /\
  rows tenure !! 3 = Some (3, row_of [("HireDate", VStr "2020-01-01");
                                      ("TerminationDate", VNull)]) /\
  map v_index (records_of "hire_before_termination" (validate tenure rules))
    = [1; 3].
Proof.
  split; [vm_compute; reflexivity|].
  split; [eexists; split; vm_compute; reflexivity|].
  split; vm_compute; reflexivity.
Qed.

(** ** Column assignment *)

Lemma assign_rows_length c s df :
  length s = length (rows df) -> length (rows (assign c s df)) = length (rows df).
Proof.
  intros Hlen. unfold assign. cbn [rows].
  rewrite length_zip_with. lia.
Qed.

Lemma assign_index c s df :
  length s = length (rows df) -> index (assign c s df) = index df.
Proof.
  unfold index, assign. cbn [rows]. revert s.
  induction (rows df) as [|lr l IH]; intros [|v s] Hlen; simpl in *;
    try discriminate; [reflexivity|].
  f_equal. apply IH. lia.
Qed.

Lemma assign_series_same c s df :
  length s = length (rows df) -> series (assign c s df) c = s.
Proof.
  unfold series, assign. cbn [rows]. revert s.
  induction (rows df) as [|lr l IH]; intros [|v s] Hlen; simpl in *;
    try discriminate; [reflexivity|].
  f_equal; [|apply IH; lia].
  unfold cell. by rewrite lookup_insert_eq.
Qed.

Lemma assign_series_other c c' s df :
  c' <> c -> length s = length (rows df) ->
  series (assign c s df) c' = series df c'.
Proof.
  intros Hne. unfold series, assign. cbn [rows]. revert s.
  induction (rows df) as [|lr l IH]; intros [|v s] Hlen; simpl in *;
    try discriminate; [reflexivity|].
  f_equal; [|apply IH; lia].
  unfold cell. by rewrite lookup_insert_ne.
Qed.

Lemma assign_has_column c c' s df :
  has_column df c' = true -> has_column (assign c s df) c' = true.
Proof.
  unfold has_column, assign. cbn [columns]. intros Hc.
  apply bool_decide_eq_true in Hc. apply bool_decide_eq_true.
  destruct (has_column df c); [exact Hc|].
  apply elem_of_app. by left.
Qed.

(** ** Outlier flags *)

Lemma string_length_append a b :
  String.length (String.append a b) = String.length a + String.length b.
Proof. induction a as [|x a IH]; simpl; [reflexivity|]. by rewrite IH. Qed.

Lemma flag_col_fresh column : flag_col column <> column.
Proof.
  unfold flag_col. intros Heq.
  apply (f_equal String.length) in Heq.
  rewrite string_length_append in Heq. simpl in Heq. lia.
Qed.

Lemma Qlt_bool_iff a b : Qlt_bool a b = true <-> (a < b)%Q.
Proof.
  unfold Qlt_bool. rewrite negb_true_iff. split.
  - intros Hle. apply Qnot_le_lt. intros Hba.
    apply Qle_bool_iff in Hba. congruence.
  - intros Hlt. destruct (Qle_bool b a) eqn:Hle; [|reflexivity].
    apply Qle_bool_iff in Hle. by apply Qlt_not_le in Hlt.
Qed.





(** ** Quartiles *)

Lemma insert_sorted_Forall (P : Q -> Prop) x l :
  P x -> List.Forall P l -> List.Forall P (insert_sorted x l).
Proof.
  intros Hx Hl. induction Hl as [|y l Hy Hl IH]; simpl.
  - by constructor.
  - destruct (Qle_bool x y); repeat constructor; auto.
Qed.

Lemma insert_sorted_sorted x l :
  StronglySorted Qle l -> StronglySorted Qle (insert_sorted x l).
Proof.
  induction 1 as [|y l Hs IH Hy]; simpl.
  - repeat constructor.
  - destruct (Qle_bool x y) eqn:Hxy.
    + apply Qle_bool_iff in Hxy. constructor; [by constructor|].
      constructor; [exact Hxy|].
      eapply List.Forall_impl; [|exact Hy].
      intros z Hz. by apply Qle_trans with y.
    + constructor; [exact IH|].
      apply insert_sorted_Forall; [|exact Hy].
      apply Qlt_le_weak, Qnot_le_lt. intros Hle.
      apply Qle_bool_iff in Hle. congruence.
Qed.

Lemma sort_values_sorted l : StronglySorted Qle (sort_values l).
Proof.
  unfold sort_values. induction l as [|x l IH]; simpl.
  - constructor.
  - by apply insert_sorted_sorted.
Qed.

Lemma sorted_nth_le l :
  StronglySorted Qle l ->
  forall i j d d', i <= j -> j < length l -> (nth i l d <= nth j l d')%Q.
Proof.
  induction 1 as [|x l Hs IH Hx]; intros i j d d' Hij Hj; simpl in Hj;
    [lia|].
  destruct i as [|i], j as [|j]; simpl; try lia.
  - apply Qle_refl.
  - rewrite List.Forall_forall in Hx. apply Hx, nth_In. lia.
  - apply IH; lia.
Qed.

(** The linear interpolation of [quantile] at position [h] lies between
    the two neighbours of [h] in the sorted values. *)
Lemma interpolation_between xs x0 h :
  StronglySorted Qle xs -> (0 <= h)%Q ->
  Z.to_nat (Qfloor h) < length xs ->
  let lo := Z.to_nat (Qfloor h) in
  let a := nth lo xs x0 in
  let b := nth (S lo) xs a in
  (a <= b /\ a <= a + (b - a) * (h - inject_Z (Qfloor h)) <= b)%Q.
Proof.
  intros Hs Hh Hlo lo a b.
  assert (Hab : (a <= b)%Q).
  { subst a b. destruct (decide (S lo < length xs)) as [Hlt|Hge].
    - apply sorted_nth_le; auto.
    - rewrite (nth_overflow xs (nth lo xs x0)) by lia. apply Qle_refl. }
  pose proof (Qfloor_le h) as Hf1.
  pose proof (Qlt_floor h) as Hf2.
  rewrite inject_Z_plus in Hf2.
  change (inject_Z 1) with 1%Q in Hf2.
  set (f := inject_Z (Qfloor h)) in *. clearbody a b f.
  split; [exact Hab|]. split; nra.
Qed.

Lemma floor_position (M : Z) h :
  (0 <= h)%Q -> (h <= inject_Z M)%Q ->
  (0 <= Qfloor h <= M)%Z.
Proof.
  intros H0 HM. split.
  - change 0%Z with (Qfloor 0). by apply Qfloor_resp_le.
  - rewrite <- (Qfloor_Z M). by apply Qfloor_resp_le.
Qed.

(** The interpolation grows with the position. *)
Lemma interpolation_mono xs x0 h1 h3 :
  StronglySorted Qle xs ->
  (0 <= h1)%Q -> (h1 <= h3)%Q ->
  (h3 <= inject_Z (Z.of_nat (length xs) - 1))%Q ->
  let F h :=
    (let lo := Z.to_nat (Qfloor h) in
     let a := nth lo xs x0 in
     let b := nth (S lo) xs a in
     a + (b - a) * (h - inject_Z (Qfloor h)))%Q in
  (F h1 <= F h3)%Q.
Proof.
  intros Hs H1 H13 H3 F.
  assert (H03 : (0 <= h3)%Q) by lra.
  assert (H1M : (h1 <= inject_Z (Z.of_nat (length xs) - 1))%Q) by lra.
  pose proof (floor_position _ _ H1 H1M) as Hf1.
  pose proof (floor_position _ _ H03 H3) as Hf3.
  pose proof (Qfloor_resp_le _ _ H13) as Hfl.
  assert (Hlo1 : Z.to_nat (Qfloor h1) < length xs) by lia.
  assert (Hlo3 : Z.to_nat (Qfloor h3) < length xs) by lia.
  pose proof (interpolation_between xs x0 h1 Hs H1 Hlo1) as B1.
  pose proof (interpolation_between xs x0 h3 Hs H03 Hlo3) as B3.
  cbv zeta in B1, B3. subst F. cbv beta zeta.
  destruct (decide (Qfloor h1 = Qfloor h3)) as [Heq|Hne].
  - rewrite <- Heq in *.
    set (a := nth (Z.to_nat (Qfloor h1)) xs x0) in *.
    set (b := nth (S (Z.to_nat (Qfloor h1))) xs a) in *.
    set (f := inject_Z (Qfloor h1)) in *.
    destruct B1 as (Hab & _). clearbody a b f. nra.
  - destruct B1 as (_ & _ & Hup), B3 as (_ & Hdown & _).
    eapply Qle_trans; [exact Hup|].
    eapply Qle_trans; [|exact Hdown].
    apply sorted_nth_le; auto. lia.
Qed.

(** The first quartile of a column never exceeds the third. *)
Lemma quartiles_ordered s q1 q3 :
  quantile (1 # 4) s = Some (Some q1) ->
  quantile (3 # 4) s = Some (Some q3) -> (q1 <= q3)%Q.
Proof.
  unfold quantile. destruct (existsb is_str s); [discriminate|].
  pose proof (sort_values_sorted (numbers s)) as Hs.
  destruct (sort_values (numbers s)) as [|x0 xs'] eqn:Hxs; [discriminate|].
  set (xs := x0 :: xs') in *.
  intros E1 E3.
  assert (HM : (0 <= inject_Z (Z.of_nat (length xs) - 1))%Q).
  { change 0%Q with (inject_Z 0). rewrite <- Zle_Qle.
    subst xs. simpl length. lia. }
  set (M := inject_Z (Z.of_nat (length xs) - 1)) in *.
  assert (Hm := interpolation_mono xs x0 (M * (1 # 4)) (M * (3 # 4)) Hs).
  cbv beta zeta in Hm. fold M in Hm.
  apply Some_inj in E1, E3. apply Some_inj in E1, E3.
  rewrite <- E1, <- E3. apply Hm; lra.
Qed.

(** ** Quartiles of whole numbers *)










(** ** Cleaning stages, column by column *)

Lemma untouched_refl P d : untouched P d d.
Proof. by repeat split. Qed.

Lemma untouched_trans (P Q R : string -> Prop) d1 d2 d3 :
  (forall c, P c -> R c) -> (forall c, Q c -> R c) ->
  untouched P d1 d2 -> untouched Q d2 d3 -> untouched R d1 d3.
Proof.
  intros HP HQ (Hi1 & Hs1 & Hc1 & Hn1) (Hi2 & Hs2 & Hc2 & Hn2).
  repeat split.
  - by rewrite Hi2.
  - intros c Hc. rewrite Hs2, Hs1; auto.
  - auto.
  - intros c Hc Hin. apply Hn1; auto.
Qed.

Lemma untouched_weaken (P R : string -> Prop) d1 d2 :
  (forall c, P c -> R c) -> untouched P d1 d2 -> untouched R d1 d2.
Proof.
  intros HP (Hi & Hs & Hc & Hn). repeat split; auto.
Qed.

Lemma assign_untouched c s d :
  length s = length (rows d) -> untouched (eq c) d (assign c s d).
Proof.
  intros Hlen. repeat split.
  - by apply assign_index.
  - intros c' Hne. apply assign_series_other; auto.
  - intros c'. apply assign_has_column.
  - intros c' Hne. unfold has_column at 1. unfold assign. cbn [columns].
    destruct (has_column d c) eqn:Hc; [done|].
    intros Hin. apply bool_decide_eq_true in Hin.
    apply elem_of_app in Hin as [Hin|Hin].
    + by apply bool_decide_eq_true.
    + apply list_elem_of_singleton in Hin. congruence.
Qed.

Lemma untouched_rows_length P d d' :
  untouched P d d' -> length (rows d') = length (rows d).
Proof. intros (Hi & _). by rewrite <- !index_length, Hi. Qed.

Lemma untouched_has_column (P : string -> Prop) d d' c :
  untouched P d d' -> ~ P c -> has_column d' c = has_column d c.
Proof.
  intros (_ & _ & Hc & Hn) HP.
  destruct (has_column d c) eqn:Hd; [by apply Hc|].
  destruct (has_column d' c) eqn:Hd'; [|reflexivity].
  rewrite <- Hd. symmetry. by apply Hn.
Qed.

Lemma for_each_untouched (body : string -> DataFrame -> option DataFrame)
    (nm : string -> string) cs :
  (forall c d d', body c d = Some d' -> untouched (eq (nm c)) d d') ->
  forall d d', for_each body cs d = Some d' ->
  untouched (fun c => In c (map nm cs)) d d'.
Proof.
  intros Hbody. induction cs as [|c0 cs IH]; intros d d' Hrun; simpl in *.
  - injection Hrun as <-. apply untouched_refl.
  - destruct (body c0 d) as [d1|] eqn:Hstep; [|discriminate].
    eapply (untouched_trans (eq (nm c0)) (fun c => In c (map nm cs)));
      [| |eapply Hbody; eassumption|eapply IH; eassumption].
    + intros c <-. by left.
    + intros c Hin. by right.
Qed.

Lemma fillna_length x s : length (fillna x s) = length s.
Proof. apply length_map. Qed.

Lemma impute_mean_untouched c d d' :
  impute_mean c d = Some d' -> untouched (eq c) d d'.
Proof.
  unfold impute_mean. destruct (has_column d c).
  - destruct (mean (series d c)) as [m|]; [|discriminate].
    intros [= <-]. apply assign_untouched.
    by rewrite fillna_length, series_length.
  - intros [= <-]. apply untouched_refl.
Qed.

Lemma impute_unknown_untouched c d d' :
  impute_unknown c d = Some d' -> untouched (eq c) d d'.
Proof.
  unfold impute_unknown. destruct (has_column d c).
  - intros [= <-]. apply assign_untouched.
    by rewrite fillna_length, series_length.
  - intros [= <-]. apply untouched_refl.
Qed.

Lemma handle_missing_untouched d d' :
  handle_missing d = Some d' ->
  untouched (fun c => In c (numeric_cols_initial ++ text_cols
                              ++ numeric_cols_remaining)) d d'.
Proof.
  unfold handle_missing.
  destruct (for_each impute_mean numeric_cols_initial d) as [d1|] eqn:H1;
    [|discriminate].
  destruct (for_each impute_unknown text_cols d1) as [d2|] eqn:H2;
    [|discriminate].
  intros H3.
  apply (for_each_untouched _ (fun c => c)) in H1;
    [|apply impute_mean_untouched].
  apply (for_each_untouched _ (fun c => c)) in H2;
    [|apply impute_unknown_untouched].
  apply (for_each_untouched _ (fun c => c)) in H3;
    [|apply impute_mean_untouched].
  rewrite map_id in H1, H2, H3.
  eapply untouched_trans; [| |exact H1|].
  2:{ intros c Hc. exact Hc. }
  { intros c Hc. apply in_or_app. by left. }
  eapply untouched_trans; [| |exact H2|exact H3].
  - intros c Hc. apply in_or_app. right. apply in_or_app. by left.
  - intros c Hc. apply in_or_app. right. apply in_or_app. by right.
Qed.

(** ** De-duplication *)

Lemma sublist_map {A B : Type} (f : A -> B) (l1 l2 : list A) :
  l1 `sublist_of` l2 -> map f l1 `sublist_of` map f l2.
Proof.
  induction 1; simpl; [constructor|by constructor|by constructor].
Qed.

Lemma sublist_filter_length {A : Type} (f : A -> bool) (l1 l2 : list A) :
  l1 `sublist_of` l2 ->
  length (List.filter f l1) <= length (List.filter f l2).
Proof.
  induction 1 as [|x l1 l2 _ IH|x l1 l2 _ IH]; simpl; [lia| |];
    destruct (f x); simpl; lia.
Qed.

Lemma sublist_Forall {A : Type} (P : A -> Prop) (l1 l2 : list A) :
  l1 `sublist_of` l2 -> Forall P l2 -> Forall P l1.
Proof.
  intros Hsub Hall. apply Forall_forall. intros x Hx.
  rewrite Forall_forall in Hall. apply Hall.
  by eapply elem_of_sublist.
Qed.

Lemma distinct_values_sublist s1 s2 :
  s1 `sublist_of` s2 -> distinct_values s2 -> distinct_values s1.
Proof.
  unfold distinct_values.
  induction 1 as [|x l1 l2 Hsub IH|x l1 l2 Hsub IH]; intros Hd.
  - constructor.
  - inversion Hd as [|? ? Hx Hrest]; subst. constructor; [|by apply IH].
    by eapply sublist_Forall.
  - inversion Hd; subst. by apply IH.
Qed.

Lemma drop_dups_sublist {A : Type} (eqb : A -> A -> bool) key seen l :
  drop_dups eqb key seen l `sublist_of` l.
Proof.
  revert seen. induction l as [|lr l IH]; intros seen; simpl.
  - constructor.
  - destruct (existsb _ seen); by constructor.
Qed.

Lemma drop_dups_fresh (key : Row -> Value) seen l :
  Forall (fun lr => existsb (value_eqb (key (snd lr))) seen = false)
         (drop_dups value_eqb key seen l).
Proof.
  revert seen. induction l as [|lr l IH]; intros seen; simpl.
  - constructor.
  - assert (Hrest : Forall
        (fun x => existsb (value_eqb (key (snd x))) seen = false)
        (drop_dups value_eqb key (key (snd lr) :: seen) l)).
    { eapply Forall_impl; [apply IH|]. simpl. intros x Hx.
      by apply orb_false_iff in Hx as [_ Hx]. }
    destruct (existsb (value_eqb (key (snd lr))) seen) eqn:Hdup;
      [exact Hrest|].
    by constructor.
Qed.

Lemma drop_dups_distinct (key : Row -> Value) seen l :
  distinct_values
    (map (fun lr => key (snd lr)) (drop_dups value_eqb key seen l)).
Proof.
  unfold distinct_values.
  revert seen. induction l as [|lr l IH]; intros seen; simpl.
  - constructor.
  - destruct (existsb (value_eqb (key (snd lr))) seen); [apply IH|].
    simpl. constructor; [|apply IH].
    apply List.Forall_map.
    eapply Forall_impl; [apply drop_dups_fresh|]. simpl. intros x Hx.
    by apply orb_false_iff in Hx as [Hx _].
Qed.

Lemma dedupe_id_spec col d d' :
  dedupe_id col d = Some d' ->
  columns d' = columns d /\
  rows d' `sublist_of` rows d /\
  (has_column d col = true -> distinct_values (series d' col)).
Proof.
  unfold dedupe_id. destruct (has_column d col); intros [= <-].
  - split; [reflexivity|split].
    + apply drop_dups_sublist.
    + intros _. apply (drop_dups_distinct (fun r => cell r col)).
  - split; [reflexivity|split; [reflexivity|discriminate]].
Qed.

Lemma remove_duplicates_spec d d' :
  remove_duplicates d = Some d' ->
  columns d' = columns d /\
  rows d' `sublist_of` rows d /\
  (has_column d "EmpID" = true -> distinct_values (series d' "EmpID")).
Proof.
  unfold remove_duplicates, id_cols. cbn [for_each].
  destruct (dedupe_id "EmpID" (drop_duplicates d)) as [d1|] eqn:H1;
    [|discriminate].
  destruct (dedupe_id "EmployeeNumber" d1) as [d2|] eqn:H2; [|discriminate].
  intros [= <-].
  apply dedupe_id_spec in H1 as (H1c & H1r & H1d).
  apply dedupe_id_spec in H2 as (H2c & H2r & _).
  split; [by rewrite H2c, H1c|split].
  - etrans; [exact H2r|]. etrans; [exact H1r|]. apply drop_dups_sublist.
  - intros Hc. eapply distinct_values_sublist; [|by apply H1d].
    by apply sublist_map.
Qed.

(** ** Type coercion and outlier flags, column by column *)

Lemma for_each_columns (body : string -> DataFrame -> option DataFrame) cs :
  (forall c d d', body c d = Some d' -> columns d' = columns d) ->
  forall d d', for_each body cs d = Some d' -> columns d' = columns d.
Proof.
  intros Hbody. induction cs as [|c0 cs IH]; intros d d' Hrun; simpl in *.
  - by injection Hrun as <-.
  - destruct (body c0 d) as [d1|] eqn:Hstep; [|discriminate].
    rewrite (IH _ _ Hrun). by eapply Hbody.
Qed.

Lemma assign_columns_present c s d :
  has_column d c = true -> columns (assign c s d) = columns d.
Proof. intros Hc. unfold assign. cbn [columns]. by rewrite Hc. Qed.

Lemma impute_mean_columns c d d' :
  impute_mean c d = Some d' -> columns d' = columns d.
Proof.
  unfold impute_mean. destruct (has_column d c) eqn:Hc.
  - destruct (mean (series d c)); [|discriminate].
    intros [= <-]. by apply assign_columns_present.
  - by intros [= <-].
Qed.

Lemma impute_unknown_columns c d d' :
  impute_unknown c d = Some d' -> columns d' = columns d.
Proof.
  unfold impute_unknown. destruct (has_column d c) eqn:Hc.
  - intros [= <-]. by apply assign_columns_present.
  - by intros [= <-].
Qed.

Lemma handle_missing_columns d d' :
  handle_missing d = Some d' -> columns d' = columns d.
Proof.
  unfold handle_missing.
  destruct (for_each impute_mean numeric_cols_initial d) as [d1|] eqn:H1;
    [|discriminate].
  destruct (for_each impute_unknown text_cols d1) as [d2|] eqn:H2;
    [|discriminate].
  intros H3.
  apply for_each_columns in H1; [|apply impute_mean_columns].
  apply for_each_columns in H2; [|apply impute_unknown_columns].
  apply for_each_columns in H3; [|apply impute_mean_columns].
  congruence.
Qed.

Section Coercion.
Context `{Conversions}.

Lemma convert_untouched f c d d' :
  convert f c d = Some d' -> untouched (eq c) d d'.
Proof.
  unfold convert. destruct (has_column d c).
  - intros [= <-]. apply assign_untouched.
    by rewrite length_map, series_length.
  - intros [= <-]. apply untouched_refl.
Qed.

Lemma convert_columns f c d d' :
  convert f c d = Some d' -> columns d' = columns d.
Proof.
  unfold convert. destruct (has_column d c) eqn:Hc.
  - intros [= <-]. by apply assign_columns_present.
  - by intros [= <-].
Qed.

Lemma convert_series f c d d' :
  convert f c d = Some d' -> has_column d c = true ->
  series d' c = map f (series d c).
Proof.
  unfold convert. intros Hrun Hc. rewrite Hc in Hrun.
  injection Hrun as <-. apply assign_series_same.
  by rewrite length_map, series_length.
Qed.

Lemma for_each_convert_series f cs c d d' :
  NoDup cs -> In c cs -> has_column d c = true ->
  for_each (convert f) cs d = Some d' ->
  series d' c = map f (series d c).
Proof.
  intros Hnd. revert d.
  induction Hnd as [|c0 cs Hfresh Hnd IH]; intros d Hin Hc Hrun;
    [destruct Hin|].
  simpl in Hrun.
  destruct (convert f c0 d) as [d1|] eqn:Hstep; [|discriminate].
  destruct (decide (c0 = c)) as [->|Hne].
  - apply (for_each_untouched _ (fun x => x)) in Hrun;
      [|intros; by eapply convert_untouched].
    destruct Hrun as (_ & Hs & _). rewrite Hs.
    + by eapply convert_series.
    + rewrite map_id. intros Hin'. apply Hfresh. by apply list_elem_of_In.
  - destruct Hin as [Heq|Hin]; [contradiction|].
    pose proof (convert_untouched _ _ _ _ Hstep) as (_ & Hs & Hcol & _).
    rewrite <- (Hs c) by congruence. apply IH; auto.
Qed.

Lemma fix_types_columns d d' : fix_types d = Some d' -> columns d' = columns d.
Proof.
  unfold fix_types.
  destruct (for_each (convert to_numeric) numeric_columns d) as [d1|] eqn:H1;
    [|discriminate].
  destruct (for_each (convert astype_category) categorical_columns d1)
    as [d2|] eqn:H2; [|discriminate].
  intros H3.
  apply for_each_columns in H1; [|apply convert_columns].
  apply for_each_columns in H2; [|apply convert_columns].
  apply convert_columns in H3. congruence.
Qed.

Lemma fix_types_spec d d' :
  fix_types d = Some d' ->
  untouched (fun c => In c (numeric_columns ++ categorical_columns
                              ++ ["EmpID"])) d d' /\
  (forall c, In c numeric_columns -> has_column d c = true ->
             series d' c = map to_numeric (series d c)) /\
  (has_column d "EmpID" = true ->
   series d' "EmpID" = map astype_str (series d "EmpID")).
Proof.
  unfold fix_types.
  destruct (for_each (convert to_numeric) numeric_columns d) as [d1|] eqn:H1;
    [|discriminate].
  destruct (for_each (convert astype_category) categorical_columns d1)
    as [d2|] eqn:H2; [|discriminate].
  intros H3.
  pose proof (for_each_untouched _ (fun x => x) _
                (fun c a b => convert_untouched to_numeric c a b) _ _ H1)
    as U1.
  pose proof (for_each_untouched _ (fun x => x) _
                (fun c a b => convert_untouched astype_category c a b) _ _ H2)
    as U2.
  pose proof (convert_untouched _ _ _ _ H3) as U3.
  rewrite map_id in U1, U2.
  split; [|split].
  - eapply untouched_trans; [| |exact U1|].
    2:{ intros c Hc. exact Hc. }
    { intros c Hc. apply in_or_app. by left. }
    eapply untouched_trans; [| |exact U2|exact U3].
    + intros c Hc. apply in_or_app. right. apply in_or_app. by left.
    + intros c <-. apply in_or_app. right. apply in_or_app. right. by left.
  - intros c Hin Hc.
    assert (Hcat : ~ In c categorical_columns).
    { revert c Hin Hc. clear.
      assert (Hall : Forall (fun c => c ∉ categorical_columns)
                       numeric_columns) by by_decide.
      intros c Hin _ Hcat. rewrite Forall_forall in Hall.
      apply (Hall c); by apply list_elem_of_In. }
    assert (Hid : "EmpID" <> c).
    { intros <-. revert Hin. not_listed. }
    destruct U2 as (_ & Hs2 & _). destruct U3 as (_ & Hs3 & _).
    rewrite Hs3, Hs2 by assumption.
    eapply for_each_convert_series; eauto. by_decide.
  - intros Hc.
    destruct U1 as (_ & Hs1 & Hc1 & _). destruct U2 as (_ & Hs2 & Hc2 & _).
    rewrite (convert_series _ _ _ _ H3) by auto.
    rewrite Hs2, Hs1; [reflexivity| |]; not_listed.
Qed.

End Coercion.

Lemma detect_outliers_iqr_untouched d col d' :
  detect_outliers_iqr d col = Some d' -> untouched (eq (flag_col col)) d d'.
Proof.
  unfold detect_outliers_iqr. destruct (has_column d col); [|discriminate].
  destruct (quantile (1 # 4) (series d col)) as [Q1|]; [|discriminate].
  destruct (quantile (3 # 4) (series d col)) as [Q3|]; [|discriminate].
  intros [= <-]. apply assign_untouched.
  by rewrite length_map, series_length.
Qed.

Lemma flag_outliers_untouched d d' :
  flag_outliers d = Some d' ->
  untouched (fun c => In c (map flag_col numeric_cols_outliers)) d d'.
Proof.
  unfold flag_outliers. apply for_each_untouched.
  intros c a b. destruct (has_column a c).
  - apply detect_outliers_iqr_untouched.
  - intros [= <-]. apply untouched_refl.
Qed.

(** ** What cleaning does to [EmpID] and [Age] *)

Lemma labelled_combine c d : labelled c d = combine (index d) (series d c).
Proof.
  unfold labelled, index, series.
  induction (rows d) as [|lr l IH]; simpl; [reflexivity|]. by rewrite IH.
Qed.

Lemma labelled_untouched (P : string -> Prop) c d d' :
  untouched P d d' -> ~ P c -> labelled c d' = labelled c d.
Proof.
  intros (Hi & Hs & _) HP. by rewrite !labelled_combine, Hi, Hs.
Qed.

Lemma combine_map_r {A B C : Type} (f : B -> C) (l : list A) (s : list B) :
  combine l (map f s) = map (fun p => (fst p, f (snd p))) (combine l s).
Proof.
  revert s. induction l as [|x l IH]; intros [|y s]; simpl;
    [reflexivity..|]. by rewrite IH.
Qed.

Lemma has_column_columns d d' c :
  columns d' = columns d -> has_column d' c = has_column d c.
Proof. unfold has_column. by intros ->. Qed.

Section CleanSpec.
Context `{Conversions}.

Lemma clean_spec raw df :
  clean raw = Some df ->
  has_column df "EmpID" = has_column raw "EmpID" /\
  has_column df "Age" = has_column raw "Age" /\
  (has_column raw "EmpID" = true ->
   exists ids, ids `sublist_of` series raw "EmpID" /\ distinct_values ids /\
               series df "EmpID" = map astype_str ids) /\
  (has_column raw "Age" = true ->
   exists ages, ages `sublist_of` labelled "Age" raw /\
     labelled "Age" df = map (fun p => (fst p, to_numeric (snd p))) ages).
Proof.
  unfold clean.
  destruct (handle_missing raw) as [d1|] eqn:H1; [|discriminate].
  destruct (remove_duplicates d1) as [d2|] eqn:H2; [|discriminate].
  destruct (fix_types d2) as [d3|] eqn:H3; [|discriminate].
  intros H4.
  pose proof (handle_missing_columns _ _ H1) as C1.
  pose proof (handle_missing_untouched _ _ H1) as U1.
  pose proof (remove_duplicates_spec _ _ H2) as (C2 & S2 & D2).
  pose proof (fix_types_columns _ _ H3) as C3.
  pose proof (fix_types_spec _ _ H3) as (U3 & N3 & E3).
  pose proof (flag_outliers_untouched _ _ H4) as U4.
  assert (Hcol : forall c, ~ In c (map flag_col numeric_cols_outliers) ->
                           has_column df c = has_column raw c).
  { intros c Hc. rewrite (untouched_has_column _ _ _ _ U4 Hc).
    rewrite (has_column_columns _ _ _ C3), (has_column_columns _ _ _ C2).
    apply (has_column_columns _ _ _ C1). }
  split; [apply Hcol; not_listed|]. split; [apply Hcol; not_listed|]. split.
  - intros Hc. exists (series d2 "EmpID"). split; [|split].
    + destruct U1 as (_ & Hs1 & _). rewrite <- (Hs1 "EmpID") by not_listed.
      unfold series. by apply sublist_map.
    + apply D2. by rewrite (has_column_columns _ _ _ C1).
    + destruct U4 as (_ & Hs4 & _). rewrite Hs4 by not_listed.
      apply E3.
      by rewrite (has_column_columns _ _ _ C2), (has_column_columns _ _ _ C1).
  - intros Hc. exists (labelled "Age" d2). split.
    + rewrite <- (labelled_untouched _ "Age" _ _ U1) by not_listed.
      unfold labelled. by apply sublist_map.
    + rewrite (labelled_untouched _ "Age" _ _ U4) by not_listed.
      rewrite !labelled_combine.
      destruct U3 as (Hi3 & _). rewrite Hi3, N3.
      * apply combine_map_r.
      * by_decide_in.
      * by rewrite (has_column_columns _ _ _ C2),
          (has_column_columns _ _ _ C1).
Qed.

End CleanSpec.

(** ** Rules that stay silent on a cleaned frame *)

Lemma labels_where_all_true idx (mask : Mask) :
  Forall (eq (Some true)) mask -> labels_where not_true idx mask = [].
Proof.
  unfold labels_where. intros Hall. revert idx.
  induction Hall as [|v mask <- _ IH]; intros [|l idx]; simpl; auto.
Qed.

Lemma rule_violations_all_true df r mask :
  verdicts df r = Some mask -> Forall (eq (Some true)) mask ->
  rule_violations df r = [].
Proof.
  intros Hv Hall. rewrite rule_violations_verdicts, Hv.
  by rewrite labels_where_all_true.
Qed.

Lemma rule_violations_absent df r :
  forallb (has_column df) (cols r) = false -> rule_violations df r = [].
Proof. intros Hc. unfold rule_violations. by rewrite Hc. Qed.

Lemma verdicts_single df r c mask :
  cols r = [c] -> has_column df c = true ->
  rule_func r (ASeries (series df c)) = Some mask ->
  length mask = length (series df c) ->
  verdicts df r = Some mask.
Proof.
  intros Hcols Hc Hf Hlen. unfold verdicts. rewrite Hcols.
  cbn [forallb rule_arg]. rewrite Hc, Hf. cbn [andb].
  by rewrite Hlen, series_length, Nat.eqb_refl.
Qed.

Lemma duplicated_from_distinct seen s :
  distinct_values s ->
  Forall (fun v => existsb (value_eqb v) seen = false) s ->
  duplicated_from seen s = map (fun _ => false) s.
Proof.
  unfold distinct_values. intros Hd. revert seen.
  induction Hd as [|v s Hv Hd IH]; intros seen Hseen; simpl; [reflexivity|].
  inversion Hseen as [|? ? Hv0 Hrest]; subst. rewrite Hv0. f_equal.
  apply IH. apply Forall_forall. intros w Hw. simpl.
  rewrite Forall_forall in Hv, Hrest.
  rewrite (Hv w Hw). by apply Hrest.
Qed.

Lemma pipeline_output `{Conversions} raw out :
  pipeline raw = Some out ->
  exists df, clean raw = Some df /\ interim_csv out = df /\
             final_csv out = df /\ validation_report out = validate df rules.
Proof.
  unfold pipeline. destruct (clean raw) as [df|]; [|discriminate].
  intros Hout. apply Some_inj in Hout. rewrite <- Hout. cbv zeta.
  exists df. cbn [interim_csv final_csv validation_report].
  split; [reflexivity|]. split; [reflexivity|].
  split; [apply run_rules_df|]. unfold validate. reflexivity.
Qed.

Section SilentRules.
Context `{Conversions}.

Lemma empid_not_null_silent df :
  (has_column df "EmpID" = true ->
   Forall (fun v => isnull v = false) (series df "EmpID")) ->
  rule_violations df empid_not_null = [].
Proof.
  intros Hnn. destruct (has_column df "EmpID") eqn:Hc.
  - eapply rule_violations_all_true.
    + apply (verdicts_single df empid_not_null "EmpID"); try reflexivity;
        [exact Hc|]. by rewrite length_map.
    + apply List.Forall_map. eapply Forall_impl; [by apply Hnn|].
      simpl. by intros v ->.
  - apply rule_violations_absent. cbn [cols empid_not_null forallb].
    by rewrite Hc.
Qed.

Lemma empid_unique_silent df :
  (has_column df "EmpID" = true -> distinct_values (series df "EmpID")) ->
  rule_violations df empid_unique = [].
Proof.
  intros Hd. destruct (has_column df "EmpID") eqn:Hc.
  - eapply rule_violations_all_true.
    + apply (verdicts_single df empid_unique "EmpID"); try reflexivity;
        [exact Hc|]. unfold duplicated.
      rewrite length_map, duplicated_from_distinct, length_map; auto.
      apply Forall_forall. by intros.
    + unfold duplicated. rewrite duplicated_from_distinct; auto.
      * apply List.Forall_map, List.Forall_map, Forall_forall. by intros.
      * apply Forall_forall. by intros.
  - apply rule_violations_absent. cbn [cols empid_unique forallb].
    by rewrite Hc.
Qed.

Lemma astype_str_not_null ids :
  Forall (fun v => isnull v = false) (map astype_str ids).
Proof. apply List.Forall_map, Forall_forall. by intros [| |]. Qed.

Lemma str_faithful_spec s v w :
  str_faithful s = true -> v ∈ s -> w ∈ s ->
  value_eqb (astype_str w) (astype_str v) = true -> value_eqb w v = true.
Proof.
  unfold str_faithful. intros Hf Hv Hw Heq.
  rewrite forallb_forall in Hf.
  apply list_elem_of_In in Hv, Hw.
  specialize (Hf v Hv). rewrite forallb_forall in Hf.
  specialize (Hf w Hw). by rewrite Heq in Hf.
Qed.

Lemma distinct_values_astype_str s ids :
  str_faithful s = true -> ids `sublist_of` s ->
  distinct_values ids -> distinct_values (map astype_str ids).
Proof.
  intros Hf Hsub. unfold distinct_values. intros Hd.
  assert (Hin : forall v, v ∈ ids -> v ∈ s)
    by (intros v Hv; by eapply elem_of_sublist).
  clear Hsub. induction Hd as [|v ids Hv Hd IH]; simpl; constructor.
  - apply List.Forall_map, Forall_forall. intros w Hw.
    rewrite Forall_forall in Hv. specialize (Hv w Hw).
    destruct (value_eqb (astype_str w) (astype_str v)) eqn:Heq;
      [|reflexivity].
    rewrite (str_faithful_spec s v w) in Hv; auto.
    + apply Hin. by left.
    + apply Hin. by right.
  - apply IH. intros w Hw. apply Hin. by right.
Qed.

(** After cleaning, [empid_not_null] has nothing to report where
    [astype(str)] turns every missing EmpID into the string "nan", as
    pandas before version 3 does. *)
Lemma empid_not_null_never_reports raw out :
  pipeline raw = Some out ->
  records_of "empid_not_null" (validation_report out) = [].
Proof.
  intros Hrun.
  destruct (pipeline_output raw out Hrun) as (df & Hclean & _ & _ & ->).
  change "empid_not_null" with (rule_name empid_not_null).
  rewrite records_of_validate;
    [|apply rules_names_NoDup|cbn [rules In]; tauto].
  apply empid_not_null_silent. intros Hc.
  destruct (clean_spec raw df Hclean) as (He & _ & Hids & _).
  rewrite He in Hc. destruct (Hids Hc) as (ids & _ & _ & ->).
  apply astype_str_not_null.
Qed.

End SilentRules.

(** On any frame handed to the loop as it is, [empid_not_null] reports, in
    row order, exactly the rows whose EmpID is null. *)
Lemma empid_not_null_reports `{Conversions} df :
  "EmpID" ∈ columns df ->
  map v_index (records_of "empid_not_null" (validate df rules)) =
  map fst (List.filter (fun lr => isnull (cell (snd lr) "EmpID")) (rows df)).
Proof.
  intros Hc. change "empid_not_null" with (rule_name empid_not_null).
  rewrite records_of_validate;
    [|apply rules_names_NoDup|cbn [rules In]; tauto].
  rewrite rule_violations_verdicts.
  rewrite (verdicts_single df empid_not_null "EmpID"
             (map (fun v => Some (negb (isnull v))) (series df "EmpID")));
    [|reflexivity|by apply has_column_true|reflexivity|by rewrite length_map].
  rewrite map_index_violation. unfold index, series.
  rewrite map_map, labels_where_rows. f_equal.
  apply List.filter_ext. intros lr. cbn [not_true].
  by destruct (isnull (cell (snd lr) "EmpID")).
Qed.

(** C3: a record whose EmpID is missing gets no [empid_not_null] record
    from the pipeline, although the rule applied to the same rows before
    type coercion reports it: [astype(str)] has turned the missing
    identifier into the string "nan". *)
Theorem missing_empid_not_reported :
  series missing_id "EmpID" = [VStr "E1"; VNull] /\
  map v_index (records_of "empid_not_null" (validate missing_id rules)) = [1] /\
  exists out,
    pipeline missing_id = Some out /\
    series (final_csv out) "EmpID" = [VStr "E1"; VStr "nan"] /\
    validation_report out = [].
Proof.
  split; [vm_compute; reflexivity|]. split; [vm_compute; reflexivity|].
  eexists. split; [vm_compute; reflexivity|].
  split; vm_compute; reflexivity.
Qed.

(** ** When the run completes *)

Lemma fillna_no_str x s :
  is_str x = false -> existsb is_str s = false ->
  existsb is_str (fillna x s) = false.
Proof.
  intros Hx. unfold fillna.
  induction s as [|v s IH]; simpl; [reflexivity|].
  intros Hs. apply orb_false_iff in Hs as [Hv Hs].
  rewrite IH by exact Hs. destruct v; simpl in *; by rewrite ?Hx.
Qed.

Lemma mean_no_str s :
  existsb is_str s = false -> exists m, mean s = Some m /\ is_str m = false.
Proof.
  intros Hs. unfold mean. rewrite Hs.
  destruct (numbers s); eexists; split; reflexivity.
Qed.

Lemma for_each_impute_mean_completes cs d :
  (forall c, In c cs -> existsb is_str (series d c) = false) ->
  exists d', for_each impute_mean cs d = Some d'.
Proof.
  revert d. induction cs as [|c0 cs IH]; intros d Hs; simpl.
  - by eexists.
  - unfold impute_mean at 1. destruct (has_column d c0) eqn:Hc.
    + destruct (mean_no_str (series d c0)) as (m & -> & Hm);
        [apply Hs; by left|].
      apply IH. intros c Hin.
      assert (Hlen : length (fillna m (series d c0)) = length (rows d))
        by (by rewrite fillna_length, series_length).
      destruct (decide (c = c0)) as [->|Hne].
      * rewrite assign_series_same by exact Hlen.
        apply fillna_no_str; [exact Hm|]. apply Hs. by left.
      * rewrite assign_series_other by auto. apply Hs. by right.
    + apply IH. intros c Hin. apply Hs. by right.
Qed.

Lemma for_each_total (body : string -> DataFrame -> option DataFrame) cs d :
  (forall c a, exists b, body c a = Some b) ->
  exists d', for_each body cs d = Some d'.
Proof.
  intros Hbody. revert d. induction cs as [|c0 cs IH]; intros d; simpl.
  - by eexists.
  - destruct (Hbody c0 d) as (d1 & ->). apply IH.
Qed.

Lemma handle_missing_completes d :
  (forall c, In c (numeric_cols_initial ++ numeric_cols_remaining) ->
             existsb is_str (series d c) = false) ->
  exists d', handle_missing d = Some d'.
Proof.
  intros Hs. unfold handle_missing.
  destruct (for_each_impute_mean_completes numeric_cols_initial d)
    as (d1 & H1); [intros c Hc; apply Hs, in_or_app; by left|].
  rewrite H1.
  destruct (for_each_total impute_unknown text_cols d1) as (d2 & H2).
  { intros c a. unfold impute_unknown. destruct (has_column a c); by eexists. }
  rewrite H2. apply for_each_impute_mean_completes. intros c Hc.
  apply (for_each_untouched _ (fun x => x)) in H1;
    [|apply impute_mean_untouched].
  apply (for_each_untouched _ (fun x => x)) in H2;
    [|apply impute_unknown_untouched].
  rewrite map_id in H1, H2.
  destruct H1 as (_ & Hs1 & _). destruct H2 as (_ & Hs2 & _).
  rewrite Hs2, Hs1.
  - apply Hs, in_or_app. by right.
  - revert c Hc.
    assert (Hall : Forall (fun c => c ∉ numeric_cols_initial)
                     numeric_cols_remaining) by by_decide.
    intros c Hc Hin. rewrite Forall_forall in Hall.
    apply (Hall c); by apply list_elem_of_In.
  - revert c Hc.
    assert (Hall : Forall (fun c => c ∉ text_cols)
                     numeric_cols_remaining) by by_decide.
    intros c Hc Hin. rewrite Forall_forall in Hall.
    apply (Hall c); by apply list_elem_of_In.
Qed.

Lemma remove_duplicates_completes d : exists d', remove_duplicates d = Some d'.
Proof.
  unfold remove_duplicates. apply for_each_total.
  intros c a. unfold dedupe_id. destruct (has_column a c); by eexists.
Qed.

Section Completes.
Context `{Conversions}.

Lemma convert_completes f c a : exists b, convert f c a = Some b.
Proof. unfold convert. destruct (has_column a c); by eexists. Qed.

Lemma fix_types_completes d : exists d', fix_types d = Some d'.
Proof.
  unfold fix_types.
  destruct (for_each_total (convert to_numeric) numeric_columns d)
    as (d1 & ->); [apply convert_completes|].
  destruct (for_each_total (convert astype_category) categorical_columns d1)
    as (d2 & ->); [apply convert_completes|].
  apply convert_completes.
Qed.

Lemma to_numeric_no_str s : existsb is_str (map to_numeric s) = false.
Proof.
  induction s as [|v s IH]; simpl; [reflexivity|]. rewrite IH.
  destruct v as [| |t]; simpl; try reflexivity.
  by destruct (parse_float t).
Qed.

Lemma for_each_detect_completes cs d :
  (forall c, In c cs -> ~ In c (map flag_col cs)) ->
  (forall c, In c cs -> has_column d c = true ->
             existsb is_str (series d c) = false) ->
  exists d',
    for_each (fun col a => if has_column a col then detect_outliers_iqr a col
                           else Some a) cs d = Some d'.
Proof.
  intros Hfresh. revert d.
  induction cs as [|c0 cs IH]; intros d Hs; simpl.
  - by eexists.
  - destruct (has_column d c0) eqn:Hc.
    + unfold detect_outliers_iqr at 1. rewrite Hc.
      unfold quantile at 1 2. rewrite (Hs c0) by (by left || exact Hc).
      apply IH.
      * intros c Hin Hflag. apply (Hfresh c); [by right|]. simpl. by right.
      * intros c Hin Hcol.
        set (flags := map _ (series d c0)) in *.
        assert (Hlen : length flags = length (rows d))
          by (subst flags; by rewrite length_map, series_length).
        assert (Hne : c <> flag_col c0).
        { intros ->. apply (Hfresh (flag_col c0)); [by right|].
          simpl. by left. }
        rewrite assign_series_other by auto.
        apply Hs; [by right|].
        destruct (assign_untouched (flag_col c0) flags d Hlen)
          as (_ & _ & _ & Hback).
        apply Hback; [congruence|exact Hcol].
    + apply IH.
      * intros c Hin Hflag. apply (Hfresh c); [by right|]. simpl. by right.
      * intros c Hin. apply Hs. by right.
Qed.

Lemma clean_completes raw :
  (forall c, In c (numeric_cols_initial ++ numeric_cols_remaining) ->
             existsb is_str (series raw c) = false) ->
  exists df, clean raw = Some df.
Proof.
  intros Hs. unfold clean.
  destruct (handle_missing_completes raw Hs) as (d1 & ->).
  destruct (remove_duplicates_completes d1) as (d2 & ->).
  destruct (fix_types_completes d2) as (d3 & H3). rewrite H3.
  apply for_each_detect_completes.
  - assert (Hall : Forall (fun c => c ∉ map flag_col numeric_cols_outliers)
                     numeric_cols_outliers) by by_decide.
    intros c Hc Hin. rewrite Forall_forall in Hall.
    apply (Hall c); by apply list_elem_of_In.
  - intros c Hc Hcol.
    destruct (fix_types_spec d2 d3 H3) as (_ & Hnum & _).
    rewrite Hnum.
    + apply to_numeric_no_str.
    + revert c Hc Hcol.
      assert (Hall : Forall (fun c => c ∈ numeric_columns)
                       numeric_cols_outliers) by by_decide.
      intros c Hc _. rewrite Forall_forall in Hall.
      apply list_elem_of_In, Hall. by apply list_elem_of_In.
    + by rewrite <- (has_column_columns _ _ _ (fix_types_columns _ _ H3)).
Qed.

(** The run completes whenever the columns imputed by their mean hold no
    string. *)
Lemma pipeline_completes raw :
  (forall c, In c (numeric_cols_initial ++ numeric_cols_remaining) ->
             existsb is_str (series raw c) = false) ->
  exists out, pipeline raw = Some out.
Proof.
  intros Hs. unfold pipeline.
  destruct (clean_completes raw Hs) as (df & ->). by eexists.
Qed.

End Completes.

(** ** End to end *)

Lemma is_num_no_str s : forallb is_num s = true -> existsb is_str s = false.
Proof.
  induction s as [|v s IH]; simpl; [reflexivity|].
  intros Hall. apply andb_true_iff in Hall as [Hv Hs].
  rewrite IH by exact Hs. by destruct v.
Qed.

Lemma filter_map_length {A B : Type} (f : B -> bool) (h : A -> B) l :
  length (List.filter f (map h l))
  = length (List.filter (fun x => f (h x)) l).
Proof.
  induction l as [|x l IH]; simpl; [reflexivity|].
  destruct (f (h x)); simpl; by rewrite IH.
Qed.

Lemma series_labelled c d : series d c = map snd (labelled c d).
Proof. unfold series, labelled. by rewrite map_map. Qed.

Section EndToEnd.
Context `{Conversions}.

Lemma verdicts_age_range df :
  has_column df "Age" = true ->
  existsb is_str (series df "Age") = false ->
  verdicts df age_range =
  Some (map (fun v => match v with
                      | VNum q => Some (Qle_bool 16 q && Qle_bool q 70)
                      | _ => Some false
                      end) (series df "Age")).
Proof.
  intros Hc Hs. apply (verdicts_single df age_range "Age"); auto.
  - cbn [rule_func age_range on_series]. unfold in_range, compare.
    by rewrite Hs.
  - by rewrite length_map.
Qed.

Lemma age_range_reports df :
  has_column df "Age" = true ->
  forallb is_num (series df "Age") = true ->
  map v_index (rule_violations df age_range) =
  map fst (List.filter (fun lr => out_of_range (cell (snd lr) "Age"))
             (rows df)).
Proof.
  intros Hc Hnum.
  rewrite rule_violations_verdicts, (verdicts_age_range df Hc),
    map_index_violation by (by apply is_num_no_str).
  unfold index, series. rewrite map_map, labels_where_rows. f_equal.
  apply List.filter_ext_in. intros lr Hin.
  rewrite forallb_forall in Hnum.
  specialize (Hnum (cell (snd lr) "Age")).
  destruct (cell (snd lr) "Age") as [|q|t] eqn:Hcell.
  - discriminate Hnum. unfold series. apply in_map_iff. by exists lr.
  - cbn [not_true out_of_range].
    by destruct (Qle_bool 16 q && Qle_bool q 70).
  - discriminate Hnum. unfold series. apply in_map_iff. by exists lr.
Qed.

Lemma silent_by_report df r a b :
  (forall v, In v (validate df rules) -> v_rule v = a \/ v_rule v = b) ->
  In r rules -> rule_name r <> a -> rule_name r <> b ->
  rule_violations df r = [].
Proof.
  intros Hrep Hr Ha Hb.
  destruct (rule_violations df r) as [|v vs] eqn:Hvs; [reflexivity|].
  assert (Hv : In v (rule_violations df r)) by (rewrite Hvs; by left).
  pose proof (rule_violations_rule _ _ _ Hv) as Hname.
  destruct (Hrep v) as [Hn|Hn]; [|congruence..].
  rewrite validate_spec. apply in_flat_map. by exists r.
Qed.

Lemma sublist_full {A : Type} (l1 l2 : list A) :
  l1 `sublist_of` l2 -> length l2 <= length l1 -> l1 = l2.
Proof.
  induction 1 as [|x l1 l2 Hsub IH|x l1 l2 Hsub IH]; simpl; intros Hlen.
  - reflexivity.
  - f_equal. apply IH. lia.
  - apply sublist_length in Hsub. lia.
Qed.

Lemma distinct_values_no_duplicate s :
  distinct_values s -> List.filter (fun d => d) (duplicated s) = [].
Proof.
  intros Hd. unfold duplicated. rewrite duplicated_from_distinct; auto.
  - clear. induction s as [|v s IH]; simpl; auto.
  - apply Forall_forall. by intros.
Qed.

(** C4 (amended): on an input of three rows with one repeated EmpID and
    one Age outside [16, 70], no string in a mean-imputed column, the run
    completes; the repeated row is dropped before validation, so at most
    two rows are validated and [empid_unique] reports nothing; when all
    other rules pass, the report holds one [age_range] record for each
    surviving row whose Age is out of range: at most one record, and none
    when the out-of-range Age sat on the dropped row. *)
Theorem three_rows_report_at_most_one (raw : DataFrame) :
  length (rows raw) = 3 ->
  "EmpID" ∈ columns raw -> "Age" ∈ columns raw ->
  length (List.filter (fun d => d) (duplicated (series raw "EmpID"))) = 1 ->
  str_faithful (series raw "EmpID") = true ->
  forallb is_num (series raw "Age") = true ->
  length (List.filter out_of_range (series raw "Age")) = 1 ->
  forallb (fun c => negb (existsb is_str (series raw c)))
          (numeric_cols_initial ++ numeric_cols_remaining) = true ->
  exists out,
    pipeline raw = Some out /\
    length (rows (final_csv out)) <= 2 /\
    labelled "Age" (final_csv out) `sublist_of` labelled "Age" raw /\
    records_of "empid_unique" (validation_report out) = [] /\
    ((forall v, In v (validation_report out) ->
                v_rule v = "empid_unique" \/ v_rule v = "age_range") ->
     map v_index (validation_report out) =
       map fst (List.filter (fun lr => out_of_range (cell (snd lr) "Age"))
                  (rows (final_csv out))) /\
     length (validation_report out) <= 1).
Proof.
  intros Hthree Hid Hage Hdup Hfaithful Hnum Hone Hstr.
  destruct (pipeline_completes raw) as (out & Hrun).
  { intros c Hc. rewrite forallb_forall in Hstr.
    apply negb_true_iff. by apply Hstr. }
  exists out. split; [exact Hrun|].
  destruct (pipeline_output raw out Hrun) as (df & Hclean & _ & -> & Hrep).
  rewrite Hrep in *. clear Hrep Hrun.
  destruct (clean_spec raw df Hclean) as (He & Ha & Hids & Hages).
  apply has_column_true in Hid, Hage.
  destruct (Hids Hid) as (ids & Hsub & Hdist & Hser).
  destruct (Hages Hage) as (ages & Hasub & Hlab).
  rewrite <- He in Hid. rewrite <- Ha in Hage.
  (* the surviving ages are numbers, so coercion leaves them alone *)
  assert (Hagesnum : Forall (fun p => is_num (snd p) = true) ages).
  { eapply sublist_Forall; [exact Hasub|].
    unfold labelled. apply List.Forall_map, Forall_forall. intros lr Hin.
    rewrite forallb_forall in Hnum. apply Hnum.
    unfold series. apply in_map_iff. exists lr. split; [reflexivity|].
    by apply list_elem_of_In. }
  assert (Hsame : labelled "Age" df = ages).
  { rewrite Hlab. clear -Hagesnum.
    induction Hagesnum as [|[l v] ages Hv _ IH]; simpl; [reflexivity|].
    rewrite IH. by destruct v. }
  assert (Hdfnum : forallb is_num (series df "Age") = true).
  { rewrite series_labelled, Hsame. apply forallb_forall. intros v Hv.
    apply in_map_iff in Hv as (p & <- & Hp).
    rewrite List.Forall_forall in Hagesnum. by apply Hagesnum. }
  assert (Hunique : rule_violations df empid_unique = []).
  { apply empid_unique_silent. intros _. rewrite Hser.
    by eapply distinct_values_astype_str. }
  split; [|split; [by rewrite Hsame|split]].
  - (* a frame without repeats cannot keep all three rows *)
    rewrite <- (series_length df "EmpID"), Hser, length_map.
    pose proof (sublist_length _ _ Hsub) as Hle.
    rewrite series_length, Hthree in Hle.
    destruct (decide (length ids = 3)) as [Hfull|]; [|lia].
    rewrite (sublist_full _ _ Hsub) in Hdist
      by (rewrite series_length; lia).
    rewrite (distinct_values_no_duplicate _ Hdist) in Hdup.
    discriminate Hdup.
  - change "empid_unique" with (rule_name empid_unique).
    rewrite records_of_validate;
      [exact Hunique|apply rules_names_NoDup|cbn [rules In]; tauto].
  - intros Hother.
    assert (Hreport : validate df rules = rule_violations df age_range).
    { rewrite validate_spec. unfold rules. cbn [flat_map].
      rewrite Hunique.
      rewrite (silent_by_report df empid_not_null _ _ Hother),
        (silent_by_report df age_positive _ _ Hother),
        (silent_by_report df income_positive _ _ Hother),
        (silent_by_report df email_format _ _ Hother),
        (silent_by_report df hire_before_termination_rule _ _ Hother),
        (silent_by_report df junior_not_manager_rule _ _ Hother);
        try (cbn [rules In]; tauto); try discriminate.
      cbn [app]. by rewrite app_nil_r. }
    split.
    + rewrite Hreport. by apply age_range_reports.
    + rewrite <- (length_map v_index), Hreport, age_range_reports by auto.
      rewrite length_map.
      rewrite <- (filter_map_length out_of_range
                    (fun lr => cell (snd lr) "Age")).
      fold (series df "Age"). rewrite series_labelled, Hsame.
      rewrite <- Hone, (series_labelled "Age" raw).
      rewrite !filter_map_length. by apply sublist_filter_length.
Qed.

End EndToEnd.

Lemma three_rows_report_at_most_one_witness :
  exists out,
    pipeline staff = Some out /\
    length (rows (final_csv out)) <= 2 /\
    labelled "Age" (final_csv out) `sublist_of` labelled "Age" staff /\
    records_of "empid_unique" (validation_report out) = [] /\
    ((forall v, In v (validation_report out) ->
                v_rule v = "empid_unique" \/ v_rule v = "age_range") ->
     map v_index (validation_report out) =
       map fst (List.filter (fun lr => out_of_range (cell (snd lr) "Age"))
                  (rows (final_csv out))) /\
     length (validation_report out) <= 1).
Proof.
  apply (three_rows_report_at_most_one staff).
  - vm_compute. reflexivity.
  - left.
  - right. left.
  - vm_compute. reflexivity.
  - vm_compute. reflexivity.
  - vm_compute. reflexivity.
  - vm_compute. reflexivity.
  - vm_compute. reflexivity.
Defined.

(** C4, as stated, fails: [staff] has three rows, one repeated EmpID and
    one Age outside [16, 70], and every other rule passes, yet the report
    of the whole pipeline holds one record, not two: the repeated row was
    dropped before validation. *)
Lemma three_rows_counterexample :
  length (rows staff) = 3 /\
  duplicated (series staff "EmpID") = [false; true; false] /\
  map out_of_range (series staff "Age") = [false; false; true] /\
  exists out,
    pipeline staff = Some out /\
    index (final_csv out) = [0; 2] /\
    map (fun v => (v_index v, v_rule v)) (validation_report out)
      = [(2, "age_range")] /\
    length (validation_report out) = 1.
Proof.
  split; [vm_compute; reflexivity|].
  split; [vm_compute; reflexivity|].
  split; [vm_compute; reflexivity|].
  eexists. split; [vm_compute; reflexivity|].
  split; [vm_compute; reflexivity|].
  split; vm_compute; reflexivity.
Qed.

(** When the out-of-range Age sits on the repeated row, nothing is
    reported at all. *)
Example repeat_under_age_reports_nothing :
  exists out,
    pipeline staff_repeat_under_age = Some out /\
    index (final_csv out) = [0; 2] /\
    validation_report out = [].
Proof.
  eexists. split; [vm_compute; reflexivity|].
  split; vm_compute; reflexivity.
Qed.

(** ** The built-in rules on small frames *)

(** In [A, A, B] only the second [A] is a duplicate. *)
Example empid_unique_second_occurrence :
  map v_index (validate staff [empid_unique]) = [1].
Proof. vm_compute. reflexivity. Qed.

(** Ages 15, 16, 70 and 71: the bounds are inclusive. *)
Example age_range_bounds :
  map v_index (validate ages [age_range]) = [0; 3].
Proof. vm_compute. reflexivity. Qed.

Example email_pattern_samples :
  fullmatch email_pattern "a@b.com" = true /\
  fullmatch email_pattern "a@b" = false /\
  fullmatch email_pattern "abc" = false.
Proof. repeat split; vm_compute; reflexivity. Qed.

(** The validation loop alone, on the rows as they were read, reports both
    the repeat and the age. *)
Example staff_without_cleaning :
  map (fun v => (v_index v, v_rule v)) (validate staff rules)
  = [(1, "empid_unique"); (2, "age_range")].
Proof. vm_compute. reflexivity. Qed.

(** * Further properties *)

(** ** The report, record by record *)

Lemma count_where_le f (mask : Mask) : count_where f mask <= length mask.
Proof. unfold count_where. apply List.filter_length_le. Qed.

Lemma rule_violations_length df r :
  length (rule_violations df r) <= length (rows df).
Proof.
  rewrite rule_violations_verdicts.
  destruct (verdicts df r) as [mask|] eqn:Hm; simpl; [|lia].
  rewrite length_map, labels_where_length.
  - rewrite <- (verdicts_length df r mask Hm). apply count_where_le.
  - rewrite index_length. symmetry. by eapply verdicts_length.
Qed.

(** A run never emits more than one record per rule and row. *)
Theorem report_length_bound (df : DataFrame) (rs : list Rule) :
  length (validate df rs) <= length rs * length (rows df).
Proof.
  rewrite validate_spec.
  induction rs as [|r rs IH]; simpl; [lia|].
  rewrite length_app. pose proof (rule_violations_length df r). lia.
Qed.

Lemma at_own_row df l (row : Row) c :
  NoDup (index df) -> In (l, row) (rows df) -> at_ df l c = cell row c.
Proof.
  unfold at_, index. induction (rows df) as [|[l' row'] rest IH];
    intros Hnd Hin; [destruct Hin|].
  simpl in *. apply NoDup_cons in Hnd as [Hfresh Hnd].
  destruct (Nat.eqb l' l) eqn:Heq.
  - apply Nat.eqb_eq in Heq. subst l'.
    destruct Hin as [Hin|Hin]; [by injection Hin as ->|].
    exfalso. apply Hfresh. apply list_elem_of_In.
    apply in_map_iff. by exists (l, row).
  - destruct Hin as [Hin|Hin]; [|by apply IH].
    injection Hin as -> ->. by rewrite Nat.eqb_refl in Heq.
Qed.

Lemma verdicts_columns df r mask :
  verdicts df r = Some mask -> forallb (has_column df) (cols r) = true.
Proof.
  unfold verdicts. by destruct (forallb (has_column df) (cols r)).
Qed.

Lemma rule_violations_inv df r v :
  In v (rule_violations df r) ->
  forallb (has_column df) (cols r) = true /\
  In (v_index v) (index df) /\ v = violation df r (v_index v).
Proof.
  rewrite rule_violations_verdicts.
  destruct (verdicts df r) as [mask|] eqn:Hm; [|intros []].
  intros Hin. apply in_map_iff in Hin as (idx & <- & Hidx).
  split; [by eapply verdicts_columns|]. split; [|reflexivity].
  cbn [v_index violation]. by eapply labels_where_subset.
Qed.

(** Every record of the report comes from a declared rule whose columns
    are present, and describes one row of the frame: with distinct row
    labels, its identifier and its values are the cells of that very row. *)
Theorem report_record_describes_row (df : DataFrame) (rs : list Rule)
    (v : Violation) :
  NoDup (index df) ->
  In v (validate df rs) ->
  exists r row,
    In r rs /\ In (v_index v, row) (rows df) /\
    Forall (fun c => c ∈ columns df) (cols r) /\
    v_rule v = rule_name r /\ v_message v = message r /\
    v_columns v = String.concat "," (cols r) /\
    v_values v = map (fun c => (c, cell row c)) (cols r) /\
    v_EmpID v = (if has_column df "EmpID" then Some (cell row "EmpID")
                 else None).
Proof.
  intros Hnd Hin. rewrite validate_spec in Hin.
  apply in_flat_map in Hin as (r & Hr & Hv).
  apply rule_violations_inv in Hv as (Hcols & Hidx & Hv).
  unfold index in Hidx. apply in_map_iff in Hidx as ([l row] & Hl & Hrow).
  simpl in Hl. subst l.
  exists r, row. split; [exact Hr|]. split; [exact Hrow|]. split.
  { apply Forall_forall. intros c Hc. rewrite forallb_forall in Hcols.
    apply list_elem_of_In, Hcols in Hc. by apply bool_decide_eq_true in Hc. }
  rewrite Hv. cbn [v_rule v_message v_columns v_values v_EmpID violation
                   v_index].
  repeat (split; [reflexivity|]). split.
  - apply map_ext. intros c. by rewrite (at_own_row df _ row).
  - destruct (has_column df "EmpID"); [|reflexivity].
    by rewrite (at_own_row df _ row).
Qed.

Lemma report_record_describes_row_witness :
  exists r row,
    In r rules /\
    In (v_index (violation staff age_range 2), row) (rows staff) /\
    Forall (fun c => c ∈ columns staff) (cols r) /\
    v_rule (violation staff age_range 2) = rule_name r /\
    v_message (violation staff age_range 2) = message r /\
    v_columns (violation staff age_range 2) = String.concat "," (cols r) /\
    v_values (violation staff age_range 2)
      = map (fun c => (c, cell row c)) (cols r) /\
    v_EmpID (violation staff age_range 2)
      = (if has_column staff "EmpID" then Some (cell row "EmpID") else None).
Proof.
  apply (report_record_describes_row staff rules
           (violation staff age_range 2)).
  - by_decide.
  - vm_compute. right. left. reflexivity.
Defined.

(** ** Rules that compare a column with a number *)

Lemma labels_where_series (f : option bool -> bool) (g : Value -> option bool)
    df c :
  labels_where f (index df) (map g (series df c))
  = map fst (List.filter (fun lr => f (g (cell (snd lr) c))) (rows df)).
Proof.
  unfold index, series. rewrite map_map. apply labels_where_rows.
Qed.

Section CompareRules.
Context `{Conversions}.

Lemma compare_rule_reports df r c test :
  In r rules -> cols r = [c] ->
  (forall s, rule_func r (ASeries s) = compare test s) ->
  has_column df c = true ->
  existsb is_str (series df c) = false ->
  map v_index (records_of (rule_name r) (validate df rules)) =
  map fst (List.filter
             (fun lr => match cell (snd lr) c with
                        | VNum q => negb (test q)
                        | _ => true
                        end) (rows df)).
Proof.
  intros Hr Hcols Hf Hc Hs.
  rewrite records_of_validate by (apply rules_names_NoDup || exact Hr).
  rewrite rule_violations_verdicts.
  rewrite (verdicts_single df r c
             (map (fun v => match v with
                            | VNum q => Some (test q)
                            | _ => Some false
                            end) (series df c))); auto.
  - rewrite map_index_violation, labels_where_series. f_equal.
    apply List.filter_ext. intros lr.
    by destruct (cell (snd lr) c) as [|q|t].
  - rewrite Hf. unfold compare. by rewrite Hs.
  - by rewrite length_map.
Qed.

Lemma compare_rule_raises df r c test :
  In r rules -> cols r = [c] ->
  (forall s, rule_func r (ASeries s) = compare test s) ->
  existsb is_str (series df c) = true ->
  records_of (rule_name r) (validate df rules) = [].
Proof.
  intros Hr Hcols Hf Hs.
  rewrite records_of_validate by (apply rules_names_NoDup || exact Hr).
  unfold rule_violations, evaluate. rewrite Hcols. cbn [rule_arg].
  rewrite Hf. unfold compare. rewrite Hs. by destruct (forallb _ _).
Qed.

(** On a numeric Age column both age rules are evaluated: [age_positive]
    reports, in row order, the rows whose Age is missing or not above 0,
    and [age_range] the rows whose Age is missing or outside [16, 70]. *)
Theorem age_rules_report_missing_and_out_of_bounds (df : DataFrame) :
  "Age" ∈ columns df ->
  existsb is_str (series df "Age") = false ->
  map v_index (records_of "age_positive" (validate df rules)) =
    map fst (List.filter
               (fun lr => match cell (snd lr) "Age" with
                          | VNum q => Qle_bool q 0
                          | _ => true
                          end) (rows df)) /\
  map v_index (records_of "age_range" (validate df rules)) =
    map fst (List.filter
               (fun lr => match cell (snd lr) "Age" with
                          | VNum q => Qlt_bool q 16 || Qlt_bool 70 q
                          | _ => true
                          end) (rows df)).
Proof.
  intros Hc Hs. apply has_column_true in Hc. split.
  - change "age_positive" with (rule_name age_positive).
    rewrite (compare_rule_reports df age_positive "Age"
               (fun q => Qlt_bool 0 q)); auto;
      [|cbn [rules In]; tauto].
    f_equal. apply List.filter_ext. intros lr.
    destruct (cell (snd lr) "Age"); try reflexivity.
    unfold Qlt_bool. apply negb_involutive.
  - change "age_range" with (rule_name age_range).
    rewrite (compare_rule_reports df age_range "Age"
               (fun q => Qle_bool 16 q && Qle_bool q 70)); auto;
      [|cbn [rules In]; tauto].
    f_equal. apply List.filter_ext. intros lr.
    destruct (cell (snd lr) "Age"); try reflexivity.
    unfold Qlt_bool. apply negb_andb.
Qed.

(** One text cell in the Age column makes both age comparisons raise, so
    neither rule reports any row, whatever the other ages are. *)
Theorem text_age_silences_age_rules (df : DataFrame) :
  existsb is_str (series df "Age") = true ->
  records_of "age_positive" (validate df rules) = [] /\
  records_of "age_range" (validate df rules) = [].
Proof.
  intros Hs. split.
  - change "age_positive" with (rule_name age_positive).
    apply (compare_rule_raises df age_positive "Age"
             (fun q => Qlt_bool 0 q)); auto. cbn [rules In]; tauto.
  - change "age_range" with (rule_name age_range).
    apply (compare_rule_raises df age_range "Age"
             (fun q => Qle_bool 16 q && Qle_bool q 70)); auto.
    cbn [rules In]; tauto.
Qed.

(** On a numeric MonthlyIncome column [income_positive] reports the rows
    whose income is missing or below 0; zero passes. *)
Theorem income_positive_reports_missing_and_negative (df : DataFrame) :
  "MonthlyIncome" ∈ columns df ->
  existsb is_str (series df "MonthlyIncome") = false ->
  map v_index (records_of "income_positive" (validate df rules)) =
    map fst (List.filter
               (fun lr => match cell (snd lr) "MonthlyIncome" with
                          | VNum q => Qlt_bool q 0
                          | _ => true
                          end) (rows df)).
Proof.
  intros Hc Hs. apply has_column_true in Hc.
  change "income_positive" with (rule_name income_positive).
  rewrite (compare_rule_reports df income_positive "MonthlyIncome"
             (fun q => Qle_bool 0 q)); auto.
  cbn [rules In]; tauto.
Qed.

End CompareRules.

Lemma age_rules_report_missing_and_out_of_bounds_witness :
  map v_index (records_of "age_positive" (validate ages_with_gap rules)) =
    map fst (List.filter
               (fun lr => match cell (snd lr) "Age" with
                          | VNum q => Qle_bool q 0
                          | _ => true
                          end) (rows ages_with_gap)) /\
  map v_index (records_of "age_range" (validate ages_with_gap rules)) =
    map fst (List.filter
               (fun lr => match cell (snd lr) "Age" with
                          | VNum q => Qlt_bool q 16 || Qlt_bool 70 q
                          | _ => true
                          end) (rows ages_with_gap)).
Proof.
  apply (age_rules_report_missing_and_out_of_bounds ages_with_gap).
  - left.
  - vm_compute. reflexivity.
Defined.

Lemma text_age_silences_age_rules_witness :
  records_of "age_positive" (validate staff_text_age rules) = [] /\
  records_of "age_range" (validate staff_text_age rules) = [].
Proof.
  apply (text_age_silences_age_rules staff_text_age).
  vm_compute. reflexivity.
Defined.

Lemma income_positive_reports_missing_and_negative_witness :
  map v_index (records_of "income_positive" (validate incomes rules)) =
    map fst (List.filter
               (fun lr => match cell (snd lr) "MonthlyIncome" with
                          | VNum q => Qlt_bool q 0
                          | _ => true
                          end) (rows incomes)).
Proof.
  apply (income_positive_reports_missing_and_negative incomes).
  - left.
  - vm_compute. reflexivity.
Defined.

(** ** [empid_unique] and de-duplication *)

Lemma drop_dups_duplicated (key : Row -> Value) seen l :
  map fst (drop_dups value_eqb key seen l) =
  map fst (List.filter (fun p => negb (snd p))
             (combine (map fst l)
                (duplicated_from seen (map (fun lr => key (snd lr)) l)))).
Proof.
  revert seen. induction l as [|lr l IH]; intros seen; simpl;
    [reflexivity|].
  destruct (existsb (value_eqb (key (snd lr))) seen); simpl;
    by rewrite IH.
Qed.

Lemma labels_where_negated idx (ds : list bool) :
  labels_where not_true idx (map (fun d => Some (negb d)) ds)
  = map fst (List.filter snd (combine idx ds)).
Proof.
  unfold labels_where. revert ds.
  induction idx as [|l idx IH]; intros [|d ds]; simpl; try reflexivity.
  destruct d; simpl; by rewrite IH.
Qed.

Section Unique.
Context `{Conversions}.

(** [empid_unique] reports exactly the rows that [drop_duplicates] on
    EmpID removes: the later occurrences of an identifier.  The rows it
    leaves unreported are the rows de-duplication keeps. *)
Theorem empid_unique_reports_what_dedup_removes (df : DataFrame) :
  "EmpID" ∈ columns df ->
  map v_index (records_of "empid_unique" (validate df rules)) =
    map fst (List.filter snd
               (combine (index df) (duplicated (series df "EmpID")))) /\
  index (drop_duplicates_subset "EmpID" df) =
    map fst (List.filter (fun p => negb (snd p))
               (combine (index df) (duplicated (series df "EmpID")))).
Proof.
  intros Hc. apply has_column_true in Hc. split.
  - change "empid_unique" with (rule_name empid_unique).
    rewrite records_of_validate;
      [|apply rules_names_NoDup|cbn [rules In]; tauto].
    rewrite rule_violations_verdicts.
    rewrite (verdicts_single df empid_unique "EmpID"
               (map (fun d => Some (negb d)) (duplicated (series df "EmpID"))));
      auto.
    + rewrite map_index_violation. apply labels_where_negated.
    + unfold duplicated. rewrite length_map. clear.
      generalize (@nil Value) as seen.
      induction (series df "EmpID") as [|v s IH]; intros seen; simpl;
        [reflexivity|]. by rewrite IH.
  - unfold index, drop_duplicates_subset. cbn [rows].
    rewrite (drop_dups_duplicated (fun r => cell r "EmpID")).
    reflexivity.
Qed.

End Unique.

Lemma empid_unique_reports_what_dedup_removes_witness :
  map v_index (records_of "empid_unique" (validate staff rules)) =
    map fst (List.filter snd
               (combine (index staff) (duplicated (series staff "EmpID")))) /\
  index (drop_duplicates_subset "EmpID" staff) =
    map fst (List.filter (fun p => negb (snd p))
               (combine (index staff) (duplicated (series staff "EmpID")))).
Proof.
  apply (empid_unique_reports_what_dedup_removes staff). left.
Defined.

(** ** [junior_not_manager] *)

Section Junior.
Context `{Conversions}.

Lemma zip_with_map_rows {B C D : Type} (f : B -> C -> D)
    (g : nat * Row -> B) (h : nat * Row -> C) (l : list (nat * Row)) :
  zip_with f (map g l) (map h l) = map (fun x => f (g x) (h x)) l.
Proof. induction l as [|x l IH]; simpl; [reflexivity|]. by rewrite IH. Qed.

Lemma junior_mask df :
  zip_with (fun lvl role => Some (negb (level_is_one lvl && is_manager role)))
    (series df "JobLevel")
    (map (fun v => match v with VStr x => Some x | _ => None end)
       (series df "JobRole"))
  = map (fun lr =>
           Some (negb (level_is_one (cell (snd lr) "JobLevel") &&
                       is_manager
                         match cell (snd lr) "JobRole" with
                         | VStr x => Some x
                         | _ => None
                         end))) (rows df).
Proof.
  unfold series. rewrite map_map.
  apply (zip_with_map_rows
           (fun lvl role => Some (negb (level_is_one lvl && is_manager role)))
           (fun lr => cell (snd lr) "JobLevel")).
Qed.

(** On a JobRole column that holds text, [junior_not_manager] reports, in
    row order, the rows whose JobLevel is 1 and whose JobRole, lowered,
    contains "manager"; a row with no role on file passes. *)
Theorem junior_not_manager_reports (df : DataFrame) :
  "JobLevel" ∈ columns df -> "JobRole" ∈ columns df ->
  existsb is_str (series df "JobRole") = true ->
  map v_index (records_of "junior_not_manager" (validate df rules)) =
  map fst (List.filter
             (fun lr =>
                match cell (snd lr) "JobLevel", cell (snd lr) "JobRole" with
                | VNum q, VStr role =>
                    Qeq_bool q 1 && contains "manager" (lower role)
                | _, _ => false
                end) (rows df)).
Proof.
  intros Hl Hr Hs. apply has_column_true in Hl, Hr.
  change "junior_not_manager" with (rule_name junior_not_manager_rule).
  rewrite records_of_validate;
    [|apply rules_names_NoDup|cbn [rules In]; tauto].
  rewrite rule_violations_verdicts.
  assert (Hv : verdicts df junior_not_manager_rule =
    Some (map (fun lr =>
                 Some (negb (level_is_one (cell (snd lr) "JobLevel") &&
                             is_manager
                               match cell (snd lr) "JobRole" with
                               | VStr x => Some x
                               | _ => None
                               end))) (rows df))).
  { unfold verdicts, junior_not_manager_rule.
    cbn [cols rule_func forallb rule_arg on_frame].
    rewrite Hl, Hr. cbn [andb]. unfold junior_not_manager.
    rewrite Hl, Hr. cbn [andb]. unfold str_accessor. rewrite Hs.
    rewrite andb_false_r, junior_mask.
    by rewrite length_map, Nat.eqb_refl. }
  rewrite Hv, map_index_violation. unfold index.
  rewrite labels_where_rows. f_equal.
  apply List.filter_ext. intros lr. cbn [not_true].
  destruct (cell (snd lr) "JobLevel") as [|q|t],
           (cell (snd lr) "JobRole") as [|q'|role];
    cbn [level_is_one is_manager andb negb]; try reflexivity;
    try (by rewrite andb_false_r).
  by destruct (Qeq_bool q 1 && contains "manager" (lower role)).
Qed.

(** A JobRole column without any text makes the [.str] accessor raise:
    the rule reports nothing, even for a junior whose role code stands for
    a manager. *)
Theorem numeric_job_role_silences_rule (df : DataFrame) :
  0 < length (rows df) ->
  existsb is_str (series df "JobRole") = false ->
  records_of "junior_not_manager" (validate df rules) = [].
Proof.
  intros Hne Hs.
  change "junior_not_manager" with (rule_name junior_not_manager_rule).
  rewrite records_of_validate;
    [|apply rules_names_NoDup|cbn [rules In]; tauto].
  unfold rule_violations, evaluate, junior_not_manager_rule.
  cbn [cols rule_func rule_arg on_frame]. unfold junior_not_manager.
  destruct (has_column df "JobLevel" && has_column df "JobRole");
    [|by destruct (forallb _ _)].
  unfold str_accessor. rewrite Hs, series_length.
  destruct (rows df); [simpl in Hne; lia|]. cbn [length Nat.eqb negb andb].
  by destruct (forallb _ _).
Qed.

End Junior.

Lemma junior_not_manager_reports_witness :
  map v_index (records_of "junior_not_manager" (validate jobs rules)) =
  map fst (List.filter
             (fun lr =>
                match cell (snd lr) "JobLevel", cell (snd lr) "JobRole" with
                | VNum q, VStr role =>
                    Qeq_bool q 1 && contains "manager" (lower role)
                | _, _ => false
                end) (rows jobs)).
Proof.
  apply (junior_not_manager_reports jobs).
  - left.
  - right. left.
  - vm_compute. reflexivity.
Defined.

Lemma numeric_job_role_silences_rule_witness :
  records_of "junior_not_manager" (validate coded_jobs rules) = [].
Proof.
  apply (numeric_job_role_silences_rule coded_jobs).
  - vm_compute. lia.
  - vm_compute. reflexivity.
Defined.

(** ** The e-mail pattern *)

Lemma append_nil_l s : "" +:+ s = s.
Proof. reflexivity. Qed.

Lemma append_cons a s t : String a s +:+ t = String a (s +:+ t).
Proof. reflexivity. Qed.

Lemma append_nil_r s : s +:+ "" = s.
Proof.
  induction s as [|a s IH]; [reflexivity|]. by rewrite append_cons, IH.
Qed.

Lemma append_assoc s1 s2 s3 : (s1 +:+ s2) +:+ s3 = s1 +:+ (s2 +:+ s3).
Proof.
  induction s1 as [|a s1 IH]; [reflexivity|].
  by rewrite !append_cons, IH.
Qed.

Lemma append_nil_inv s1 s2 : s1 +:+ s2 = "" -> s1 = "" /\ s2 = "".
Proof.
  destruct s1; [rewrite append_nil_l; auto|].
  rewrite append_cons. discriminate.
Qed.

Lemma nullable_spec r : nullable r = true <-> Matches r "".
Proof.
  induction r as [| |p|r1 IH1 r2 IH2|r1 IH1 r2 IH2|r IH]; simpl.
  - split; [discriminate|]. inversion 1.
  - split; [constructor|reflexivity].
  - split; [discriminate|]. inversion 1.
  - rewrite andb_true_iff, IH1, IH2. split.
    + intros [H1 H2]. apply (MSeq r1 r2 "" "" H1 H2).
    + inversion 1 as [| |? ? s1 s2 H1 H2 [Hr1 Hr2] Hs| | | |]; subst.
      apply append_nil_inv in Hs as [-> ->]. auto.
  - rewrite orb_true_iff, IH1, IH2. split.
    + intros [H|H]; [by apply MAltL|by apply MAltR].
    + inversion 1; subst; auto.
  - split; [constructor|reflexivity].
Qed.

(** A non-empty match of a star starts with a non-empty match of its body. *)
Lemma star_cons_inv r a s :
  Matches (RStar r) (String a s) ->
  exists s1 s2, s = s1 +:+ s2 /\ Matches r (String a s1) /\
                Matches (RStar r) s2.
Proof.
  intros Hm. remember (RStar r) as rs eqn:Hrs.
  remember (String a s) as w eqn:Hw. revert s Hw.
  induction Hm as [| | | | | |r0 s1 s2 H1 _ H2 IH2]; intros t Hw;
    try discriminate.
  injection Hrs as ->.
  destruct s1 as [|b s1].
  - rewrite append_nil_l in Hw. by apply IH2.
  - rewrite append_cons in Hw. injection Hw as -> <-. by exists s1, s2.
Qed.

Lemma deriv_spec a r s : Matches (deriv a r) s <-> Matches r (String a s).
Proof.
  revert s.
  induction r as [| |p|r1 IH1 r2 IH2|r1 IH1 r2 IH2|r IH]; intros s; simpl.
  - split; inversion 1.
  - split; inversion 1.
  - destruct (p a) eqn:Hp; split.
    + inversion 1; subst. by constructor.
    + inversion 1; subst. constructor.
    + inversion 1.
    + inversion 1; subst. congruence.
  - assert (Hseq : forall s, Matches (RSeq (deriv a r1) r2) s ->
                             Matches (RSeq r1 r2) (String a s)).
    { intros w Hw. inversion Hw as [| |? ? s1 s2 H1 H2| | | |]; subst.
      apply IH1 in H1. apply (MSeq r1 r2 (String a s1) s2 H1 H2). }
    assert (Hinv : forall s, Matches (RSeq r1 r2) (String a s) ->
              Matches (RSeq (deriv a r1) r2) s \/
              (Matches r1 "" /\ Matches r2 (String a s))).
    { intros w Hw. inversion Hw as [| |? ? s1 s2 H1 H2 Hr Hs| | | |]; subst.
      destruct s1 as [|b s1].
      - rewrite append_nil_l in Hs. subst s2. right. auto.
      - rewrite append_cons in Hs. injection Hs as -> <-. left.
        apply MSeq; [by apply IH1|exact H2]. }
    destruct (nullable r1) eqn:Hn.
    + split.
      * inversion 1; subst; [by apply Hseq|].
        apply (MSeq r1 r2 "" (String a s)); [by apply nullable_spec|].
        by apply IH2.
      * intros Hm. destruct (Hinv s Hm) as [H|[_ H]];
          [by apply MAltL|apply MAltR; by apply IH2].
    + split; [apply Hseq|].
      intros Hm. destruct (Hinv s Hm) as [H|[H _]]; [exact H|].
      apply nullable_spec in H. congruence.
  - split.
    + inversion 1; subst; [apply MAltL|apply MAltR]; by (apply IH1 || apply IH2).
    + inversion 1; subst; [apply MAltL|apply MAltR]; by (apply IH1 || apply IH2).
  - split.
    + inversion 1 as [| |? ? s1 s2 H1 H2| | | |]; subst.
      apply IH in H1. apply (MStarApp r (String a s1) s2 H1 H2).
    + intros Hm. apply star_cons_inv in Hm as (s1 & s2 & -> & H1 & H2).
      apply MSeq; [by apply IH|exact H2].
Qed.

(** The matcher decides the language of the pattern. *)
Lemma fullmatch_spec r s : fullmatch r s = true <-> Matches r s.
Proof.
  revert r. induction s as [|a s IH]; intros r; simpl.
  - apply nullable_spec.
  - rewrite IH. apply deriv_spec.
Qed.

Lemma seq_inv r1 r2 s :
  Matches (RSeq r1 r2) s ->
  exists s1 s2, s = s1 +:+ s2 /\ Matches r1 s1 /\ Matches r2 s2.
Proof. inversion 1; subst. eauto. Qed.

Lemma char_inv c s : Matches (RChar c) s <-> s = String c "".
Proof.
  unfold RChar. split.
  - inversion 1 as [|p a Hp| | | | |]; subst.
    apply Ascii.eqb_eq in Hp. by subst.
  - intros ->. constructor. apply Ascii.eqb_refl.
Qed.

Lemma class_inv p s :
  Matches (RClass p) s -> exists a, s = String a "" /\ p a = true.
Proof. inversion 1; subst. eauto. Qed.

Lemma not_at_inv s :
  Matches (RNot "@") s ->
  exists a, s = String a "" /\ negb (Ascii.eqb "@"%char a) = true.
Proof. unfold RNot. apply class_inv. Qed.

Lemma star_not_at s : Matches (RStar (RNot "@")) s <-> no_at s = true.
Proof.
  induction s as [|a s IH].
  - split; [reflexivity|constructor].
  - cbn [no_at]. rewrite andb_true_iff, <- IH. split.
    + intros Hm. apply star_cons_inv in Hm as (s1 & s2 & -> & H1 & H2).
      apply not_at_inv in H1 as (b & [= -> ->] & Hp).
      rewrite append_nil_l. auto.
    + intros [Ha Hs].
      apply (MStarApp (RNot "@") (String a "") s); [|exact Hs].
      by constructor.
Qed.

Lemma plus_not_at s : Matches (RPlus (RNot "@")) s <-> plain s.
Proof.
  unfold RPlus, plain. split.
  - intros Hm. apply seq_inv in Hm as (s1 & s2 & -> & H1 & H2).
    apply not_at_inv in H1 as (b & -> & Hp).
    rewrite append_cons, append_nil_l. split; [discriminate|].
    cbn [no_at]. rewrite Hp. by apply star_not_at.
  - intros [Hne Hs]. destruct s as [|a s]; [contradiction|].
    cbn [no_at] in Hs. apply andb_true_iff in Hs as [Ha Hs].
    apply (MSeq (RNot "@") (RStar (RNot "@")) (String a "") s).
    + by constructor.
    + by apply star_not_at.
Qed.

Lemma no_at_append s t : no_at (s +:+ t) = no_at s && no_at t.
Proof.
  induction s as [|a s IH]; [reflexivity|].
  rewrite append_cons. cbn [no_at]. by rewrite IH, andb_assoc.
Qed.

Lemma plain_append s t : plain s -> no_at t = true -> plain (s +:+ t).
Proof.
  intros [Hne Hs] Ht. split.
  - destruct s; [contradiction|]. rewrite append_cons. discriminate.
  - by rewrite no_at_append, Hs, Ht.
Qed.

(** [email_format] accepts exactly the texts of the shape
    local "@" domain "." rest, each of the three parts non-empty and free
    of "@"; in particular a text with no "@", with two of them, or with no
    dot after the "@" is rejected. *)
Lemma email_pattern_language (s : string) :
  fullmatch email_pattern s = true <->
  exists l d t, s = l +:+ "@" +:+ d +:+ "." +:+ t /\
                plain l /\ plain d /\ plain t.
Proof.
  rewrite fullmatch_spec. unfold email_pattern. split.
  - intros Hm.
    apply seq_inv in Hm as (l & s1 & -> & Hl & Hm).
    apply seq_inv in Hm as (a & s2 & -> & Ha & Hm).
    apply seq_inv in Hm as (d & s3 & -> & Hd & Hm).
    apply seq_inv in Hm as (p & s4 & -> & Hp & Hm).
    apply seq_inv in Hm as (t & nl & -> & Ht & Hnl).
    apply char_inv in Ha, Hp. subst a p.
    apply plus_not_at in Hl, Hd, Ht.
    exists l, d, (t +:+ nl). split; [reflexivity|].
    split; [exact Hl|]. split; [exact Hd|].
    apply plain_append; [exact Ht|].
    unfold RDollar in Hnl.
    inversion Hnl as [| | |? ? ? He|? ? ? Hc| |]; subst.
    + by inversion He.
    + apply char_inv in Hc. by subst.
  - intros (l & d & t & -> & Hl & Hd & Ht).
    apply plus_not_at in Hl, Hd, Ht.
    rewrite <- (append_nil_r t).
    repeat (apply MSeq; try assumption); try (by apply char_inv).
    apply MAltL. constructor.
Qed.

(** ** De-duplication, once and again *)

Lemma drop_dups_fresh_by {A : Type} (eqb : A -> A -> bool) key seen l :
  Forall (fun lr => existsb (eqb (key (snd lr))) seen = false)
         (drop_dups eqb key seen l).
Proof.
  revert seen. induction l as [|lr l IH]; intros seen; simpl.
  - constructor.
  - assert (Hrest : Forall
        (fun x => existsb (eqb (key (snd x))) seen = false)
        (drop_dups eqb key (key (snd lr) :: seen) l)).
    { eapply Forall_impl; [apply IH|]. simpl. intros x Hx.
      by apply orb_false_iff in Hx as [_ Hx]. }
    destruct (existsb (eqb (key (snd lr))) seen) eqn:Hdup;
      [exact Hrest|].
    by constructor.
Qed.

Lemma drop_dups_distinct_by {A : Type} (eqb : A -> A -> bool) key seen l :
  distinct_by eqb key (drop_dups eqb key seen l).
Proof.
  unfold distinct_by.
  revert seen. induction l as [|lr l IH]; intros seen; simpl.
  - constructor.
  - destruct (existsb (eqb (key (snd lr))) seen); [apply IH|].
    constructor; [|apply IH].
    eapply Forall_impl; [apply drop_dups_fresh_by|]. simpl. intros x Hx.
    by apply orb_false_iff in Hx as [Hx _].
Qed.

Lemma distinct_by_sublist {A : Type} (eqb : A -> A -> bool) key l1 l2 :
  l1 `sublist_of` l2 -> distinct_by eqb key l2 -> distinct_by eqb key l1.
Proof.
  unfold distinct_by.
  induction 1 as [|x l1 l2 Hsub IH|x l1 l2 Hsub IH]; intros Hd.
  - constructor.
  - inversion Hd as [|? ? Hx Hrest]; subst. constructor; [|by apply IH].
    by eapply sublist_Forall.
  - inversion Hd; subst. by apply IH.
Qed.

(** Rows that are already distinct are all kept. *)
Lemma drop_dups_fixed {A : Type} (eqb : A -> A -> bool) key seen l :
  distinct_by eqb key l ->
  Forall (fun lr => existsb (eqb (key (snd lr))) seen = false) l ->
  drop_dups eqb key seen l = l.
Proof.
  unfold distinct_by. intros Hd. revert seen.
  induction Hd as [|lr l Hlr Hd IH]; intros seen Hseen; simpl;
    [reflexivity|].
  inversion Hseen as [|? ? Hhd Htl]; subst. rewrite Hhd. f_equal.
  apply IH. apply Forall_forall. intros x Hx. simpl.
  rewrite Forall_forall in Hlr, Htl. by rewrite (Hlr x Hx), (Htl x Hx).
Qed.

Lemma drop_dups_fixed_nil {A : Type} (eqb : A -> A -> bool) key l :
  distinct_by eqb key l -> drop_dups eqb key [] l = l.
Proof.
  intros Hd. apply drop_dups_fixed; [exact Hd|].
  apply Forall_forall. by intros.
Qed.

Lemma dedupe_id_fixed col d :
  (has_column d col = true ->
   distinct_by value_eqb (fun r => cell r col) (rows d)) ->
  dedupe_id col d = Some d.
Proof.
  intros Hd. unfold dedupe_id. destruct (has_column d col); [|reflexivity].
  unfold drop_duplicates_subset. rewrite drop_dups_fixed_nil by auto.
  by destruct d.
Qed.

(** De-duplication is idempotent: a frame it has produced is returned
    unchanged, row for row, when it is de-duplicated again. *)
Theorem remove_duplicates_idempotent (d d' : DataFrame) :
  remove_duplicates d = Some d' -> remove_duplicates d' = Some d'.
Proof.
  unfold remove_duplicates, id_cols. cbn [for_each].
  destruct (dedupe_id "EmpID" (drop_duplicates d)) as [d1|] eqn:H1;
    [|discriminate].
  destruct (dedupe_id "EmployeeNumber" d1) as [d2|] eqn:H2; [|discriminate].
  intros [= <-].
  assert (R0 : distinct_by (row_eqb (columns d)) (fun r => r)
                 (rows (drop_duplicates d)))
    by apply drop_dups_distinct_by.
  assert (C1 : columns d1 = columns d /\
               rows d1 `sublist_of` rows (drop_duplicates d) /\
               (has_column d1 "EmpID" = true ->
                distinct_by value_eqb (fun r => cell r "EmpID") (rows d1))).
  { revert H1. unfold dedupe_id.
    destruct (has_column (drop_duplicates d) "EmpID") eqn:Hc;
      intros [= <-].
    - split; [reflexivity|]. split; [apply drop_dups_sublist|].
      intros _. apply drop_dups_distinct_by.
    - split; [reflexivity|]. split; [reflexivity|].
      unfold has_column in *. cbn [columns drop_duplicates] in *. congruence. }
  destruct C1 as (C1 & S1 & D1).
  assert (C2 : columns d2 = columns d1 /\ rows d2 `sublist_of` rows d1 /\
               (has_column d2 "EmployeeNumber" = true ->
                distinct_by value_eqb (fun r => cell r "EmployeeNumber")
                  (rows d2))).
  { revert H2. unfold dedupe_id.
    destruct (has_column d1 "EmployeeNumber") eqn:Hc; intros [= <-].
    - split; [reflexivity|]. split; [apply drop_dups_sublist|].
      intros _. apply drop_dups_distinct_by.
    - split; [reflexivity|]. split; [reflexivity|]. congruence. }
  destruct C2 as (C2 & S2 & D2).
  assert (Hfull : drop_duplicates d2 = d2).
  { unfold drop_duplicates. rewrite drop_dups_fixed_nil; [by destruct d2|].
    rewrite C2, C1. eapply distinct_by_sublist; [|exact R0].
    by etrans. }
  rewrite Hfull.
  rewrite (dedupe_id_fixed "EmpID" d2).
  - by rewrite (dedupe_id_fixed "EmployeeNumber" d2).
  - intros Hc. eapply distinct_by_sublist; [exact S2|]. apply D1.
    by rewrite <- (has_column_columns d1 d2 "EmpID" C2).
Qed.

Lemma remove_duplicates_idempotent_witness :
  exists d', remove_duplicates roster = Some d' /\
             index d' = [0; 2] /\ remove_duplicates d' = Some d'.
Proof.
  eexists. split; [vm_compute; reflexivity|].
  split; [vm_compute; reflexivity|].
  apply (remove_duplicates_idempotent roster). vm_compute. reflexivity.
Defined.

(** De-duplication always succeeds; it keeps the columns and a
    subsequence of the rows under their labels, and leaves no repeated
    EmpID and no repeated EmployeeNumber. *)
Theorem remove_duplicates_enforces_unique_ids (d : DataFrame) :
  exists d',
    remove_duplicates d = Some d' /\
    columns d' = columns d /\
    rows d' `sublist_of` rows d /\
    (has_column d "EmpID" = true -> distinct_values (series d' "EmpID")) /\
    (has_column d "EmployeeNumber" = true ->
     distinct_values (series d' "EmployeeNumber")).
Proof.
  destruct (remove_duplicates_completes d) as (d' & Hrun).
  exists d'. split; [exact Hrun|].
  destruct (remove_duplicates_spec d d' Hrun) as (Hc & Hs & Hid).
  split; [exact Hc|]. split; [exact Hs|]. split; [exact Hid|].
  revert Hrun. unfold remove_duplicates, id_cols. cbn [for_each].
  destruct (dedupe_id "EmpID" (drop_duplicates d)) as [d1|] eqn:H1;
    [|discriminate].
  destruct (dedupe_id "EmployeeNumber" d1) as [d2|] eqn:H2; [|discriminate].
  intros [= <-] Hnum.
  apply dedupe_id_spec in H1 as (H1c & _).
  apply dedupe_id_spec in H2 as (_ & _ & H2d). apply H2d.
  rewrite (has_column_columns _ _ _ H1c). exact Hnum.
Qed.

Lemma value_eqb_refl v : value_eqb v v = true.
Proof.
  destruct v; simpl; [reflexivity|apply Qeq_bool_refl|apply String.eqb_refl].
Qed.

Lemma value_eqb_trans a b c :
  value_eqb a b = true -> value_eqb b c = true -> value_eqb a c = true.
Proof.
  destruct a, b, c; simpl; try discriminate; auto.
  - apply Qeq_bool_trans.
  - intros Hab Hbc. apply String.eqb_eq in Hab, Hbc. subst.
    apply String.eqb_refl.
Qed.

Lemma row_eqb_cell cs r1 r2 c :
  In c cs -> row_eqb cs r1 r2 = true ->
  value_eqb (cell r1 c) (cell r2 c) = true.
Proof.
  unfold row_eqb. intros Hc Hall. rewrite forallb_forall in Hall.
  by apply Hall.
Qed.

(** Every row has an equal that is kept or was seen before. *)
Lemma drop_dups_represents {A : Type} (eqb : A -> A -> bool) key seen l x :
  (forall a, eqb a a = true) ->
  (forall a b c, eqb a b = true -> eqb b c = true -> eqb a c = true) ->
  In x l ->
  (exists y, In y (drop_dups eqb key seen l) /\
             eqb (key (snd x)) (key (snd y)) = true) \/
  (exists s, In s seen /\ eqb (key (snd x)) s = true).
Proof.
  intros Hrefl Htrans. revert seen.
  induction l as [|lr l IH]; intros seen Hin; [destruct Hin|].
  simpl. destruct Hin as [->|Hin].
  - destruct (existsb (eqb (key (snd x))) seen) eqn:Hdup.
    + right. apply existsb_exists in Hdup as (s & Hs & Heq). eauto.
    + left. exists x. split; [by left|apply Hrefl].
  - destruct (IH (key (snd lr) :: seen) Hin)
      as [(y & Hy & Heq)|(s & [<-|Hs] & Heq)].
    + left. exists y. split; [|exact Heq].
      destruct (existsb (eqb (key (snd lr))) seen); [exact Hy|by right].
    + destruct (existsb (eqb (key (snd lr))) seen) eqn:Hdup.
      * right. apply existsb_exists in Hdup as (s & Hs & Heq').
        exists s. split; [exact Hs|]. by eapply Htrans.
      * left. exists lr. split; [by left|exact Heq].
    + right. eauto.
Qed.

(** When the frame has no EmployeeNumber column, de-duplication loses no
    identifier: every EmpID of the input is still the EmpID of a kept
    row. *)
Theorem dedup_keeps_every_identifier (d d' : DataFrame) (v : Value) :
  remove_duplicates d = Some d' ->
  "EmpID" ∈ columns d -> "EmployeeNumber" ∉ columns d ->
  In v (series d "EmpID") ->
  exists w, In w (series d' "EmpID") /\ value_eqb v w = true.
Proof.
  unfold remove_duplicates, id_cols. cbn [for_each].
  destruct (dedupe_id "EmpID" (drop_duplicates d)) as [d1|] eqn:H1;
    [|discriminate].
  destruct (dedupe_id "EmployeeNumber" d1) as [d2|] eqn:H2; [|discriminate].
  intros [= <-] Hid Hnum Hv.
  unfold dedupe_id in H1.
  assert (Hc : has_column (drop_duplicates d) "EmpID" = true)
    by (by apply has_column_true).
  rewrite Hc in H1. injection H1 as <-.
  unfold dedupe_id in H2.
  assert (Hn : has_column (drop_duplicates_subset "EmpID" (drop_duplicates d))
                 "EmployeeNumber" = false)
    by (by apply bool_decide_eq_false).
  rewrite Hn in H2. injection H2 as <-.
  unfold series in Hv. apply in_map_iff in Hv as (x & <- & Hx).
  (* a full duplicate has the same identifier *)
  destruct (drop_dups_represents (row_eqb (columns d)) (fun r => r) []
              (rows d) x) as [(y & Hy & Hxy)|(s & [] & _)]; auto.
  { intros r. unfold row_eqb. apply forallb_forall. intros c _.
    apply value_eqb_refl. }
  { intros r1 r2 r3 H12 H23. unfold row_eqb in *.
    rewrite forallb_forall in H12, H23. apply forallb_forall. intros c Hcin.
    eapply value_eqb_trans; eauto. }
  apply (row_eqb_cell (columns d) _ _ "EmpID") in Hxy;
    [|by apply list_elem_of_In].
  destruct (drop_dups_represents value_eqb (fun r => cell r "EmpID") []
              (rows (drop_duplicates d)) y)
    as [(z & Hz & Hyz)|(s & [] & _)]; auto using value_eqb_refl.
  { apply value_eqb_trans. }
  exists (cell (snd z) "EmpID"). split.
  - unfold series. apply in_map_iff. by exists z.
  - by eapply value_eqb_trans.
Qed.

Lemma dedup_keeps_every_identifier_witness :
  exists d', remove_duplicates badges = Some d' /\
    exists w, In w (series d' "EmpID") /\ value_eqb (VStr "A") w = true.
Proof.
  eexists. split; [vm_compute; reflexivity|].
  apply (dedup_keeps_every_identifier badges).
  - vm_compute. reflexivity.
  - left.
  - by_decide.
  - vm_compute. left. reflexivity.
Defined.

(** ** Imputation, column by column *)

Lemma assign_has_cells_same c s d :
  has_cells c (assign c s d).
Proof.
  unfold has_cells, assign. cbn [rows]. revert s.
  induction (rows d) as [|lr l IH]; intros [|v s]; simpl;
    try constructor; [|apply IH].
  simpl. rewrite lookup_insert_eq. by eexists.
Qed.

Lemma assign_has_cells_other c c' s d :
  has_cells c' d -> has_cells c' (assign c s d).
Proof.
  unfold has_cells, assign. cbn [rows]. intros Hd. revert s.
  induction Hd as [|lr l Hlr Hd IH]; intros [|v s]; simpl;
    try constructor; [|apply IH].
  simpl. destruct (decide (c = c')) as [->|Hne].
  - rewrite lookup_insert_eq. by eexists.
  - by rewrite lookup_insert_ne.
Qed.

(** Writing a column back over itself changes nothing. *)
Lemma assign_same_series c d :
  has_column d c = true -> has_cells c d -> assign c (series d c) d = d.
Proof.
  intros Hc Hk. destruct d as [cs rs]. unfold assign, series, has_cells in *.
  cbn [columns rows] in *. rewrite Hc. f_equal.
  induction Hk as [|[l r] rs [v Hv] Hk IH]; simpl; [reflexivity|].
  simpl in Hv.
  assert (Hr : <[c:=cell r c]> r = r).
  { unfold cell. rewrite Hv. by apply insert_id. }
  by rewrite Hr, IH.
Qed.

Lemma column_step_untouched body upd c d d' :
  column_step body upd -> body c d = Some d' -> untouched (eq c) d d'.
Proof.
  intros [Hbody Hlen]. rewrite Hbody.
  destruct (has_column d c).
  - destruct (upd (series d c)) as [s|] eqn:Hs; [|discriminate].
    intros [= <-]. apply assign_untouched.
    by rewrite (Hlen _ _ Hs), series_length.
  - intros [= <-]. apply untouched_refl.
Qed.

Lemma column_step_has_cells body upd c c' d d' :
  column_step body upd -> body c d = Some d' ->
  has_cells c' d -> has_cells c' d'.
Proof.
  intros [Hbody _]. rewrite Hbody. destruct (has_column d c).
  - destruct (upd (series d c)); [|discriminate].
    intros [= <-]. apply assign_has_cells_other.
  - by intros [= <-].
Qed.

Lemma for_each_has_cells body upd cs c d d' :
  column_step body upd -> for_each body cs d = Some d' ->
  has_cells c d -> has_cells c d'.
Proof.
  intros Hstep. revert d.
  induction cs as [|c0 cs IH]; intros d Hrun Hk; simpl in Hrun.
  - by injection Hrun as <-.
  - destruct (body c0 d) as [d1|] eqn:H1; [|discriminate].
    eapply IH; [exact Hrun|]. by eapply column_step_has_cells.
Qed.

(** A loop of column updates over distinct names rewrites each present
    column once, from the cells it had before the loop. *)
Lemma for_each_step_series body upd cs c d d' :
  column_step body upd -> NoDup cs -> In c cs ->
  has_column d c = true ->
  for_each body cs d = Some d' ->
  exists s, upd (series d c) = Some s /\ series d' c = s /\ has_cells c d'.
Proof.
  intros Hstep Hnd. revert d.
  induction Hnd as [|c0 cs Hfresh Hnd IH]; intros d Hin Hc Hrun;
    [destruct Hin|].
  simpl in Hrun.
  destruct (body c0 d) as [d1|] eqn:H1; [|discriminate].
  pose proof (column_step_untouched _ _ _ _ _ Hstep H1) as (_ & Hs1 & Hc1 & _).
  destruct (decide (c0 = c)) as [->|Hne].
  - pose proof (for_each_untouched body (fun x => x) cs
                  (fun a b e => column_step_untouched body upd a b e Hstep)
                  _ _ Hrun) as (_ & Hs & _).
    rewrite map_id in Hs.
    destruct Hstep as [Hbody Hlen]. rewrite Hbody, Hc in H1.
    destruct (upd (series d c)) as [s|] eqn:Hu; [|discriminate].
    injection H1 as <-. exists s. split; [reflexivity|]. split.
    + rewrite Hs by (intros Hin'; apply Hfresh; by apply list_elem_of_In).
      apply assign_series_same. by rewrite (Hlen _ _ Hu), series_length.
    + eapply for_each_has_cells; [split; eassumption|exact Hrun|].
      apply assign_has_cells_same.
  - destruct Hin as [Heq|Hin]; [contradiction|].
    rewrite <- (Hs1 c) by congruence. apply IH; auto.
Qed.

Lemma for_each_fixed {S : Type} (body : string -> S -> option S) cs st :
  (forall c, In c cs -> body c st = Some st) ->
  for_each body cs st = Some st.
Proof.
  induction cs as [|c0 cs IH]; intros Hfix; simpl; [reflexivity|].
  rewrite Hfix by (by left). apply IH. intros c Hc. apply Hfix. by right.
Qed.

Lemma impute_mean_step : column_step impute_mean fill_with_mean.
Proof.
  split.
  - intros col d. unfold impute_mean, fill_with_mean.
    destruct (has_column d col); [|reflexivity].
    by destruct (mean (series d col)).
  - intros s s'. unfold fill_with_mean.
    destruct (mean s); [|discriminate]. intros [= <-]. apply fillna_length.
Qed.

Lemma impute_unknown_step :
  column_step impute_unknown (fun s => Some (fillna (VStr "Unknown") s)).
Proof.
  split.
  - intros col d. unfold impute_unknown. by destruct (has_column d col).
  - intros s s' [= <-]. apply fillna_length.
Qed.

Lemma mean_lists_NoDup :
  NoDup numeric_cols_initial /\ NoDup text_cols /\
  NoDup numeric_cols_remaining.
Proof. split; [|split]; by_decide. Qed.

Lemma mean_columns_apart c :
  In c (numeric_cols_initial ++ numeric_cols_remaining) -> ~ In c text_cols.
Proof.
  assert (Hall : Forall (fun c => c ∉ text_cols)
                   (numeric_cols_initial ++ numeric_cols_remaining))
    by by_decide.
  intros Hc Hin. rewrite Forall_forall in Hall.
  apply (Hall c); by apply list_elem_of_In.
Qed.

Lemma initial_remaining_apart c :
  In c numeric_cols_initial -> ~ In c numeric_cols_remaining.
Proof.
  assert (Hall : Forall (fun c => c ∉ numeric_cols_remaining)
                   numeric_cols_initial) by by_decide.
  intros Hc Hin. rewrite Forall_forall in Hall.
  apply (Hall c); by apply list_elem_of_In.
Qed.

(** What [handle_missing] leaves in a present column, in terms of the
    cells it found there. *)
Lemma handle_missing_series d d' c :
  handle_missing d = Some d' -> has_column d c = true ->
  (In c (numeric_cols_initial ++ numeric_cols_remaining) ->
   exists m, mean (series d c) = Some m /\
             series d' c = fillna m (series d c) /\ has_cells c d') /\
  (In c text_cols ->
   series d' c = fillna (VStr "Unknown") (series d c) /\ has_cells c d').
Proof.
  unfold handle_missing.
  destruct (for_each impute_mean numeric_cols_initial d) as [d1|] eqn:H1;
    [|discriminate].
  destruct (for_each impute_unknown text_cols d1) as [d2|] eqn:H2;
    [|discriminate].
  intros H3 Hc.
  destruct mean_lists_NoDup as (N1 & N2 & N3).
  pose proof (for_each_untouched _ (fun x => x) _
                impute_mean_untouched _ _ H1) as U1.
  pose proof (for_each_untouched _ (fun x => x) _
                impute_unknown_untouched _ _ H2) as U2.
  pose proof (for_each_untouched _ (fun x => x) _
                impute_mean_untouched _ _ H3) as U3.
  rewrite map_id in U1, U2, U3.
  destruct U1 as (_ & S1 & C1 & _), U2 as (_ & S2 & C2 & _),
           U3 as (_ & S3 & _).
  split.
  - intros Hin. pose proof (mean_columns_apart c Hin) as Htext.
    apply in_app_or in Hin as [Hin|Hin].
    + destruct (for_each_step_series _ _ _ c _ _ impute_mean_step N1 Hin
                  Hc H1) as (s & Hu & Hs & Hk).
      unfold fill_with_mean in Hu.
      destruct (mean (series d c)) as [m|]; [|discriminate].
      injection Hu as <-. exists m. split; [reflexivity|]. split.
      * rewrite S3, S2; auto. by apply initial_remaining_apart.
      * eapply for_each_has_cells; [apply impute_mean_step|exact H3|].
        eapply for_each_has_cells; [apply impute_unknown_step|exact H2|].
        exact Hk.
    + assert (Hinit : ~ In c numeric_cols_initial)
        by (intros Hi; by apply (initial_remaining_apart c)).
      destruct (for_each_step_series _ _ _ c _ _ impute_mean_step N3 Hin
                  (C2 _ (C1 _ Hc)) H3) as (s & Hu & Hs & Hk).
      rewrite S2, S1 in Hu by auto.
      unfold fill_with_mean in Hu.
      destruct (mean (series d c)) as [m|]; [|discriminate].
      injection Hu as <-. exists m. by repeat split.
  - intros Hin.
    assert (Hmean : ~ In c (numeric_cols_initial ++ numeric_cols_remaining))
      by (intros Hm; by apply (mean_columns_apart c)).
    destruct (for_each_step_series _ _ _ c _ _ impute_unknown_step N2 Hin
                (C1 _ Hc) H2) as (s & Hu & Hs & Hk).
    injection Hu as <-. split.
    + rewrite S3, Hs, S1; auto; intros Hi; apply Hmean, in_or_app; auto.
    + eapply for_each_has_cells; [apply impute_mean_step|exact H3|exact Hk].
Qed.

Lemma fillna_no_gap x s :
  isnull x = false -> Forall (fun v => isnull v = false) (fillna x s).
Proof.
  intros Hx. unfold fillna. apply List.Forall_map, Forall_forall.
  intros v _. by destruct v.
Qed.

Lemma fillna_full x s :
  Forall (fun v => isnull v = false) s -> fillna x s = s.
Proof.
  unfold fillna. induction 1 as [|v s Hv _ IH]; simpl; [reflexivity|].
  by rewrite Hv, IH.
Qed.

Lemma fillna_null s : fillna VNull s = s.
Proof.
  unfold fillna. induction s as [|v s IH]; simpl; [reflexivity|].
  rewrite IH. by destruct v.
Qed.


Lemma mean_null s : mean s = Some VNull -> numbers s = [].
Proof.
  unfold mean. destruct (existsb is_str s); [discriminate|].
  by destruct (numbers s).
Qed.



Lemma mean_some s m : mean s = Some m -> existsb is_str s = false /\ is_str m = false.
Proof.
  unfold mean. destruct (existsb is_str s); [discriminate|].
  destruct (numbers s); intros [= <-]; auto.
Qed.

(** Imputing a column that has been imputed is a no-op. *)
Lemma fill_with_mean_twice s s' :
  fill_with_mean s = Some s' -> fill_with_mean s' = Some s'.
Proof.
  unfold fill_with_mean. destruct (mean s) as [m|] eqn:Hm; [|discriminate].
  intros [= <-]. destruct (mean_some s m Hm) as (Hs & Hstr).
  destruct (isnull m) eqn:Hnull.
  - destruct m; try discriminate. rewrite fillna_null, Hm.
    by rewrite fillna_null.
  - destruct (mean_no_str (fillna m s)) as (m' & -> & _);
      [by apply fillna_no_str|].
    f_equal. apply fillna_full. by apply fillna_no_gap.
Qed.

(** Imputation is idempotent: a frame it has produced is returned
    unchanged when it is imputed again. *)
Theorem handle_missing_idempotent (d d' : DataFrame) :
  handle_missing d = Some d' -> handle_missing d' = Some d'.
Proof.
  intros Hrun.
  pose proof (handle_missing_columns d d' Hrun) as Hcols.
  assert (Hmean : forall c,
            In c (numeric_cols_initial ++ numeric_cols_remaining) ->
            impute_mean c d' = Some d').
  { intros c Hin. unfold impute_mean.
    destruct (has_column d' c) eqn:Hc; [|reflexivity].
    rewrite (has_column_columns d d' c Hcols) in Hc.
    destruct (handle_missing_series d d' c Hrun Hc) as (Hm & _).
    destruct (Hm Hin) as (m & Hmean & Hser & Hk).
    assert (Hfill : fill_with_mean (series d c) = Some (series d' c))
      by (unfold fill_with_mean; by rewrite Hmean, Hser).
    apply fill_with_mean_twice in Hfill. unfold fill_with_mean in Hfill.
    destruct (mean (series d' c)) as [m'|]; [|discriminate].
    injection Hfill as ->. f_equal. apply assign_same_series; [|exact Hk].
    by rewrite (has_column_columns d d' c Hcols). }
  assert (Htext : forall c, In c text_cols -> impute_unknown c d' = Some d').
  { intros c Hin. unfold impute_unknown.
    destruct (has_column d' c) eqn:Hc; [|reflexivity].
    rewrite (has_column_columns d d' c Hcols) in Hc.
    destruct (handle_missing_series d d' c Hrun Hc) as (_ & Ht).
    destruct (Ht Hin) as (Hser & Hk).
    rewrite fillna_full by (rewrite Hser; by apply fillna_no_gap).
    f_equal. apply assign_same_series; [|exact Hk].
    by rewrite (has_column_columns d d' c Hcols). }
  unfold handle_missing.
  rewrite for_each_fixed
    by (intros c Hc; apply Hmean, in_or_app; by left).
  rewrite for_each_fixed by exact Htext.
  apply for_each_fixed. intros c Hc. apply Hmean, in_or_app. by right.
Qed.

Lemma handle_missing_idempotent_witness :
  exists d', handle_missing payroll = Some d' /\
    series d' "HourlyRate"
      = [VNum 40; VNum (90 # 2); VNum 50; VNum (90 # 2)] /\
    handle_missing d' = Some d'.
Proof.
  eexists. split; [vm_compute; reflexivity|].
  split; [vm_compute; reflexivity|].
  apply (handle_missing_idempotent payroll). vm_compute. reflexivity.
Defined.


(** ** Type coercion, once and again *)

Section CoercionTwice.
Context `{Conversions}.

Lemma convert_step f : column_step (convert f) (fun s => Some (map f s)).
Proof.
  split.
  - intros col d. unfold convert. by destruct (has_column d col).
  - intros s s' [= <-]. apply length_map.
Qed.

Lemma to_numeric_twice v : to_numeric (to_numeric v) = to_numeric v.
Proof.
  destruct v as [| |t]; simpl; try reflexivity.
  by destruct (parse_float t).
Qed.

Lemma astype_str_twice v : astype_str (astype_str v) = astype_str v.
Proof. by destruct v. Qed.

Lemma astype_str_is_str s : forallb is_str (map astype_str s) = true.
Proof. induction s as [|v s IH]; simpl; [reflexivity|]. by destruct v. Qed.

Lemma type_lists_NoDup : NoDup numeric_columns /\ NoDup categorical_columns.
Proof. split; by_decide. Qed.

Lemma numeric_not_categorical c :
  In c numeric_columns -> ~ In c categorical_columns.
Proof.
  assert (Hall : Forall (fun c => c ∉ categorical_columns) numeric_columns)
    by by_decide.
  intros Hc Hin. rewrite Forall_forall in Hall.
  apply (Hall c); by apply list_elem_of_In.
Qed.

(** What [fix_types] leaves in each present column, and that every row
    holds a cell there. *)
Lemma fix_types_series d d' c :
  fix_types d = Some d' -> has_column d c = true ->
  (In c numeric_columns ->
   series d' c = map to_numeric (series d c) /\ has_cells c d') /\
  (In c categorical_columns ->
   series d' c = series d c /\ has_cells c d') /\
  (c = "EmpID" ->
   series d' c = map astype_str (series d c) /\ has_cells c d').
Proof.
  unfold fix_types.
  destruct (for_each (convert to_numeric) numeric_columns d) as [d1|] eqn:H1;
    [|discriminate].
  destruct (for_each (convert astype_category) categorical_columns d1)
    as [d2|] eqn:H2; [|discriminate].
  intros H3 Hc.
  destruct type_lists_NoDup as (N1 & N2).
  pose proof (for_each_untouched _ (fun x => x) _
                (fun a b e => convert_untouched to_numeric a b e) _ _ H1)
    as (_ & S1 & C1 & _).
  pose proof (for_each_untouched _ (fun x => x) _
                (fun a b e => convert_untouched astype_category a b e) _ _ H2)
    as (_ & S2 & C2 & _).
  pose proof (convert_untouched _ _ _ _ H3) as (_ & S3 & _).
  rewrite map_id in S1, S2.
  split; [|split].
  - intros Hin.
    destruct (for_each_step_series _ _ _ c _ _ (convert_step to_numeric)
                N1 Hin Hc H1) as (s & [= <-] & Hs & Hk).
    split.
    + rewrite S3, S2; auto.
      * by apply numeric_not_categorical.
      * intros <-. revert Hin. not_listed.
    + eapply column_step_has_cells; [apply convert_step|exact H3|].
      eapply for_each_has_cells; [apply convert_step|exact H2|exact Hk].
  - intros Hin.
    assert (Hnum : ~ In c numeric_columns)
      by (intros Hn; by apply (numeric_not_categorical c)).
    destruct (for_each_step_series _ _ _ c _ _
                (convert_step astype_category) N2 Hin (C1 _ Hc) H2)
      as (s & [= <-] & Hs & Hk).
    split.
    + rewrite S3, Hs, S1; auto.
      * unfold astype_category. apply map_id.
      * intros <-. revert Hin. not_listed.
    + eapply column_step_has_cells; [apply convert_step|exact H3|exact Hk].
  - intros ->.
    destruct (for_each_step_series (convert astype_str)
                (fun s => Some (map astype_str s)) ["EmpID"] "EmpID" d2 d')
      as (s & [= <-] & Hs & Hk); auto.
    + apply convert_step.
    + by_decide.
    + by left.
    + simpl. by rewrite H3.
    + split; [|exact Hk]. rewrite Hs, S2, S1; auto; not_listed.
Qed.

(** Type coercion never fails.  It keeps the columns and the row labels;
    afterwards no designated numeric column holds text, what could not be
    read as a number being missing; and every EmpID that was on file is a
    text, a text being kept as it was. *)
Theorem fix_types_leaves_typed_columns (d : DataFrame) :
  exists d',
    fix_types d = Some d' /\
    columns d' = columns d /\ index d' = index d /\
    (forall c, In c numeric_columns -> has_column d c = true ->
               series d' c = map to_numeric (series d c) /\
               existsb is_str (series d' c) = false) /\
    (has_column d "EmpID" = true ->
     length (series d' "EmpID") = length (series d "EmpID") /\
     forall i v, series d "EmpID" !! i = Some v -> isnull v = false ->
       (exists t, series d' "EmpID" !! i = Some (VStr t)) /\
       (forall t, v = VStr t -> series d' "EmpID" !! i = Some (VStr t))).
Proof.
  destruct (fix_types_completes d) as (d' & Hrun). exists d'.
  split; [exact Hrun|]. split; [by apply fix_types_columns|].
  destruct (fix_types_spec d d' Hrun) as ((Hi & _) & Hnum & Hid).
  split; [exact Hi|]. split.
  - intros c Hin Hc. rewrite (Hnum c Hin Hc).
    split; [reflexivity|apply to_numeric_no_str].
  - intros Hc. rewrite (Hid Hc). split; [apply length_map|].
    intros i v Hv Hnn. rewrite lookup_map, Hv. cbn [option_map].
    destruct v as [|q|t]; [discriminate|..]; cbn [astype_str].
    + split; [by eexists|]. intros t [=].
    + split; [by eexists|]. by intros t' [= ->].
Qed.

(** Type coercion is idempotent: a frame it has produced is returned
    unchanged when it is coerced again. *)
Theorem fix_types_idempotent (d d' : DataFrame) :
  fix_types d = Some d' -> fix_types d' = Some d'.
Proof.
  intros Hrun. pose proof (fix_types_columns d d' Hrun) as Hcols.
  assert (Hfix : forall f c,
            (has_column d c = true ->
             map f (series d' c) = series d' c /\ has_cells c d') ->
            convert f c d' = Some d').
  { intros f c Hc. unfold convert.
    destruct (has_column d' c) eqn:Hc'; [|reflexivity].
    rewrite (has_column_columns d d' c Hcols) in Hc'.
    destruct (Hc Hc') as (-> & Hk). f_equal.
    apply assign_same_series; [|exact Hk].
    by rewrite (has_column_columns d d' c Hcols). }
  unfold fix_types.
  rewrite for_each_fixed.
  - rewrite for_each_fixed.
    + apply Hfix. intros Hc.
      destruct (fix_types_series d d' "EmpID" Hrun Hc) as (_ & _ & Hid).
      destruct (Hid eq_refl) as (-> & Hk). split; [|exact Hk].
      rewrite map_map. apply map_ext, astype_str_twice.
    + intros c Hin. apply Hfix. intros Hc.
      destruct (fix_types_series d d' c Hrun Hc) as (_ & Hcat & _).
      destruct (Hcat Hin) as (_ & Hk). split; [|exact Hk].
      unfold astype_category. apply map_id.
  - intros c Hin. apply Hfix. intros Hc.
    destruct (fix_types_series d d' c Hrun Hc) as (Hnum & _).
    destruct (Hnum Hin) as (-> & Hk). split; [|exact Hk].
    rewrite map_map. apply map_ext, to_numeric_twice.
Qed.

End CoercionTwice.

Lemma fix_types_idempotent_witness :
  exists d', fix_types staff_text_age = Some d' /\
    series d' "Age" = [VNull; VNum 40] /\ fix_types d' = Some d'.
Proof.
  eexists. split; [vm_compute; reflexivity|].
  split; [vm_compute; reflexivity|].
  apply (fix_types_idempotent staff_text_age). vm_compute. reflexivity.
Defined.

(** ** The fence around the quartiles *)

(** The quartiles of a column are ordered, so the fence
    [Q1 - 1.5 IQR, Q3 + 1.5 IQR] encloses them, and a value lying between
    the quartiles is never flagged as an outlier. *)
Theorem value_between_quartiles_is_not_flagged
    (s : list Value) (q1 q3 : Q) :
  quantile (1 # 4) s = Some (Some q1) ->
  quantile (3 # 4) s = Some (Some q3) ->
  (q1 <= q3)%Q /\
  (exists lower upper,
     fence (Some q1) (Some q3) = Some (lower, upper) /\
     (lower <= q1)%Q /\ (q3 <= upper)%Q) /\
  forall x, (q1 <= x)%Q -> (x <= q3)%Q ->
    outlier_flag (fence (Some q1) (Some q3)) (VNum x) = VNum 0.
Proof.
  intros H1 H3. pose proof (quartiles_ordered s q1 q3 H1 H3) as Hq.
  split; [exact Hq|]. split.
  - eexists _, _. split; [reflexivity|]. split; lra.
  - intros x Hlo Hhi. unfold fence, outlier_flag.
    assert (Hl : Qlt_bool x (q1 - (3 # 2) * (q3 - q1)) = false).
    { apply not_true_is_false. intros Hb. apply Qlt_bool_iff in Hb. lra. }
    assert (Hu : Qlt_bool (q3 + (3 # 2) * (q3 - q1)) x = false).
    { apply not_true_is_false. intros Hb. apply Qlt_bool_iff in Hb. lra. }
    by rewrite Hl, Hu.
Qed.

Lemma value_between_quartiles_is_not_flagged_witness :
  exists q1 q3,
    ((q1 <= q3)%Q /\
     (exists lower upper,
        fence (Some q1) (Some q3) = Some (lower, upper) /\
        (lower <= q1)%Q /\ (q3 <= upper)%Q) /\
     forall x, (q1 <= x)%Q -> (x <= q3)%Q ->
       outlier_flag (fence (Some q1) (Some q3)) (VNum x) = VNum 0) /\
    (q1 == 110)%Q /\ (q3 == 130)%Q.
Proof.
  eexists _, _. split.
  - apply (value_between_quartiles_is_not_flagged (series rates "DailyRate"));
      vm_compute; reflexivity.
  - split; vm_compute; reflexivity.
Defined.

(** ** Outlier flags, column by column *)

Lemma assign_has_column_same c s d : has_column (assign c s d) c = true.
Proof.
  unfold has_column at 1. unfold assign. cbn [columns].
  apply bool_decide_eq_true.
  destruct (has_column d c) eqn:Hc.
  - by apply bool_decide_eq_true in Hc.
  - apply elem_of_app. right. by apply list_elem_of_singleton.
Qed.

Lemma assign_has_column_other c c' s d :
  c' <> c -> length s = length (rows d) ->
  has_column (assign c s d) c' = has_column d c'.
Proof.
  intros Hne Hlen.
  destruct (assign_untouched c s d Hlen) as (_ & _ & Hfwd & Hback).
  destruct (has_column d c') eqn:Hc.
  - by apply Hfwd.
  - destruct (has_column (assign c s d) c') eqn:Hc'; [|reflexivity].
    rewrite Hback in Hc; [discriminate|congruence|exact Hc'].
Qed.

(** Flagging a column again changes nothing: the flags are computed from
    the source column, which the first call left as it was. *)
Theorem detect_outliers_iqr_idempotent (data data' : DataFrame)
    (column : string) :
  detect_outliers_iqr data column = Some data' ->
  detect_outliers_iqr data' column = Some data'.
Proof.
  unfold detect_outliers_iqr at 1.
  destruct (has_column data column) eqn:Hc; [|discriminate].
  destruct (quantile (1 # 4) (series data column)) as [Q1|] eqn:HQ1;
    [|discriminate].
  destruct (quantile (3 # 4) (series data column)) as [Q3|] eqn:HQ3;
    [|discriminate].
  intros Hrun. apply Some_inj in Hrun.
  set (flags := map (outlier_flag (fence Q1 Q3)) (series data column)) in *.
  assert (Hlen : length flags = length (rows data))
    by (subst flags; by rewrite length_map, series_length).
  assert (Hsame : series data' column = series data column).
  { rewrite <- Hrun. apply assign_series_other; [|exact Hlen].
    intros Heq. by apply (flag_col_fresh column). }
  unfold detect_outliers_iqr.
  rewrite <- Hrun at 1. rewrite assign_has_column by exact Hc.
  rewrite Hsame, HQ1, HQ3. fold flags. f_equal.
  assert (Hflags : series data' (flag_col column) = flags)
    by (rewrite <- Hrun; by apply assign_series_same).
  rewrite <- Hflags. apply assign_same_series.
  - rewrite <- Hrun. apply assign_has_column_same.
  - rewrite <- Hrun. apply assign_has_cells_same.
Qed.

Lemma detect_outliers_iqr_idempotent_witness :
  exists data',
    detect_outliers_iqr rates "DailyRate" = Some data' /\
    detect_outliers_iqr data' "DailyRate" = Some data'.
Proof.
  eexists. split; [vm_compute; reflexivity|].
  apply (detect_outliers_iqr_idempotent rates). vm_compute. reflexivity.
Defined.

Lemma flag_step_untouched c d d1 :
  (if has_column d c then detect_outliers_iqr d c else Some d) = Some d1 ->
  untouched (eq (flag_col c)) d d1.
Proof.
  destruct (has_column d c).
  - apply detect_outliers_iqr_untouched.
  - intros [= <-]. apply untouched_refl.
Qed.

Lemma flag_step_has_cells c c' d d1 :
  (if has_column d c then detect_outliers_iqr d c else Some d) = Some d1 ->
  has_cells c' d -> has_cells c' d1.
Proof.
  destruct (has_column d c) eqn:Hc.
  - unfold detect_outliers_iqr. rewrite Hc.
    destruct (quantile _ _); [|discriminate].
    destruct (quantile _ _); [|discriminate].
    intros Hrun. apply Some_inj in Hrun. rewrite <- Hrun.
    apply assign_has_cells_other.
  - by intros [= <-].
Qed.

Lemma flag_loop_has_cells cs c' d d' :
  for_each (fun col a => if has_column a col then detect_outliers_iqr a col
                         else Some a) cs d = Some d' ->
  has_cells c' d -> has_cells c' d'.
Proof.
  revert d. induction cs as [|c0 cs IH]; intros d Hrun Hk; simpl in Hrun.
  - by injection Hrun as <-.
  - destruct (if has_column d c0 then detect_outliers_iqr d c0 else Some d)
      as [d1|] eqn:H1; [|discriminate].
    eapply IH; [exact Hrun|]. by eapply flag_step_has_cells.
Qed.

(** The loop over the designated columns flags each present column from
    its own cells, whatever the other columns hold. *)
Lemma flag_loop_series cs d d' c :
  NoDup (map flag_col cs) ->
  (forall c, In c cs -> ~ In c (map flag_col cs)) ->
  for_each (fun col a => if has_column a col then detect_outliers_iqr a col
                         else Some a) cs d = Some d' ->
  In c cs -> has_column d c = true ->
  exists Q1 Q3,
    quantile (1 # 4) (series d c) = Some Q1 /\
    quantile (3 # 4) (series d c) = Some Q3 /\
    series d' (flag_col c) = map (outlier_flag (fence Q1 Q3)) (series d c) /\
    has_column d' (flag_col c) = true /\ has_cells (flag_col c) d'.
Proof.
  revert d. induction cs as [|c0 cs IH]; intros d Hnd Hfresh Hrun Hin Hc;
    [destruct Hin|].
  simpl in Hrun, Hnd. apply NoDup_cons in Hnd as [Hf0 Hnd].
  destruct (if has_column d c0 then detect_outliers_iqr d c0 else Some d)
    as [d1|] eqn:H1; [|discriminate].
  pose proof (flag_step_untouched _ _ _ H1) as (_ & S1 & C1 & _).
  assert (Hfresh' : forall c, In c cs -> ~ In c (map flag_col cs)).
  { intros x Hx Hfx. apply (Hfresh x); [by right|]. simpl. by right. }
  destruct (decide (c0 = c)) as [->|Hne].
  - rewrite Hc in H1. unfold detect_outliers_iqr in H1. rewrite Hc in H1.
    destruct (quantile (1 # 4) (series d c)) as [Q1|]; [|discriminate].
    destruct (quantile (3 # 4) (series d c)) as [Q3|]; [|discriminate].
    apply Some_inj in H1. exists Q1, Q3.
    split; [reflexivity|]. split; [reflexivity|].
    set (flags := map (outlier_flag (fence Q1 Q3)) (series d c)) in *.
    assert (Hlen : length flags = length (rows d))
      by (subst flags; by rewrite length_map, series_length).
    pose proof (for_each_untouched _ flag_col cs flag_step_untouched
                  _ _ Hrun) as (_ & S2 & C2 & _).
    split; [|split].
    + rewrite S2 by (intros Hx; apply Hf0; by apply list_elem_of_In).
      rewrite <- H1. by apply assign_series_same.
    + apply C2. rewrite <- H1. apply assign_has_column_same.
    + eapply flag_loop_has_cells; [exact Hrun|].
      rewrite <- H1. apply assign_has_cells_same.
  - destruct Hin as [Heq|Hin]; [contradiction|].
    assert (Hcf : c <> flag_col c0).
    { intros ->. apply (Hfresh (flag_col c0)); [by right|]. simpl. by left. }
    rewrite <- (S1 c) by congruence.
    apply IH; auto.
Qed.

Lemma outlier_columns_apart :
  NoDup (map flag_col numeric_cols_outliers) /\
  forall c, In c numeric_cols_outliers ->
            ~ In c (map flag_col numeric_cols_outliers).
Proof.
  split; [by_decide|].
  assert (Hall : Forall (fun c => c ∉ map flag_col numeric_cols_outliers)
                   numeric_cols_outliers) by by_decide.
  intros c Hc Hin. rewrite Forall_forall in Hall.
  apply (Hall c); by apply list_elem_of_In.
Qed.

(** The outlier stage gives every designated column that is present its
    own flag column, as long as the column, holding only 0 and 1, and 0
    where the designated column has no value; the designated column
    itself is left as it was.  On a designated column of whole numbers of
    magnitude at most 2^40, where float64 computes the quartiles and the
    fence exactly, the flags are those of that column's own quartiles,
    whatever the other columns hold. *)
Theorem flag_outliers_flags_each_column (d d' : DataFrame) (c : string) :
  flag_outliers d = Some d' ->
  In c numeric_cols_outliers -> has_column d c = true ->
  has_column d' (flag_col c) = true /\
  length (series d' (flag_col c)) = length (series d c) /\
  List.Forall (fun v => v = VNum 0 \/ v = VNum 1) (series d' (flag_col c)) /\
  (forall i, series d c !! i = Some VNull ->
             series d' (flag_col c) !! i = Some (VNum 0)) /\
  series d' c = series d c /\
  (forallb small_whole (numbers (series d c)) = true ->
   exists Q1 Q3,
     quantile (1 # 4) (series d c) = Some Q1 /\
     quantile (3 # 4) (series d c) = Some Q3 /\
     series d' (flag_col c) = map (outlier_flag (fence Q1 Q3)) (series d c)).
Proof.
  intros Hrun Hin Hc.
  destruct outlier_columns_apart as (Hnd & Hfresh).
  destruct (flag_loop_series _ _ _ c Hnd Hfresh Hrun Hin Hc)
    as (Q1 & Q3 & H1 & H3 & Hs & Hf & _).
  split; [exact Hf|]. split; [by rewrite Hs, length_map|]. split; [|split].
  - rewrite Hs. apply List.Forall_map, List.Forall_forall. intros v _.
    unfold outlier_flag. destruct (fence Q1 Q3) as [[lo up]|]; [|by left].
    destruct v; try (by left).
    destruct (_ || _); [by right|by left].
  - intros i Hi. rewrite Hs, lookup_map, Hi. cbn [option_map].
    unfold outlier_flag. by destruct (fence Q1 Q3) as [[lo up]|].
  - split.
    + destruct (flag_outliers_untouched d d' Hrun) as (_ & Hs' & _).
      apply Hs'. by apply Hfresh.
    + intros _. by exists Q1, Q3.
Qed.

(** The outlier stage is idempotent: a frame that carries its flags is returned
    unchanged when it is flagged again. *)
Theorem flag_outliers_idempotent (d d' : DataFrame) :
  flag_outliers d = Some d' -> flag_outliers d' = Some d'.
Proof.
  intros Hrun. unfold flag_outliers. apply for_each_fixed. intros c Hin.
  destruct outlier_columns_apart as (Hnd & Hfresh).
  destruct (flag_outliers_untouched d d' Hrun) as (_ & Hs & _ & Hback).
  destruct (has_column d' c) eqn:Hc'; [|reflexivity].
  assert (Hc : has_column d c = true) by (apply Hback; auto).
  destruct (flag_loop_series _ _ _ c Hnd Hfresh Hrun Hin Hc)
    as (Q1 & Q3 & H1 & H3 & Hflags & Hf & Hk).
  unfold detect_outliers_iqr. rewrite Hc', (Hs c), H1, H3 by auto.
  rewrite <- Hflags. f_equal. by apply assign_same_series.
Qed.

Lemma flag_outliers_flags_each_column_witness :
  exists d',
    flag_outliers rates = Some d' /\
    forallb small_whole (numbers (series rates "DailyRate")) = true /\
    has_column d' (flag_col "DailyRate") = true /\
    length (series d' (flag_col "DailyRate"))
      = length (series rates "DailyRate") /\
    List.Forall (fun v => v = VNum 0 \/ v = VNum 1)
      (series d' (flag_col "DailyRate")) /\
    (forall i, series rates "DailyRate" !! i = Some VNull ->
               series d' (flag_col "DailyRate") !! i = Some (VNum 0)) /\
    series d' "DailyRate" = series rates "DailyRate" /\
    (forallb small_whole (numbers (series rates "DailyRate")) = true ->
     exists Q1 Q3,
       quantile (1 # 4) (series rates "DailyRate") = Some Q1 /\
       quantile (3 # 4) (series rates "DailyRate") = Some Q3 /\
       series d' (flag_col "DailyRate")
         = map (outlier_flag (fence Q1 Q3)) (series rates "DailyRate")).
Proof.
  eexists. split; [vm_compute; reflexivity|].
  split; [vm_compute; reflexivity|].
  apply (flag_outliers_flags_each_column rates).
  - vm_compute. reflexivity.
  - left. reflexivity.
  - vm_compute. reflexivity.
Defined.

Lemma flag_outliers_idempotent_witness :
  exists d',
    flag_outliers rates = Some d' /\
    series d' "DailyRate_outlier"
      = [VNum 0; VNum 0; VNum 0; VNum 0; VNum 0; VNum 1] /\
    flag_outliers d' = Some d'.
Proof.
  eexists. split; [vm_compute; reflexivity|].
  split; [vm_compute; reflexivity|].
  apply (flag_outliers_idempotent rates). vm_compute. reflexivity.
Defined.

(** ** The whole run *)

Section WholeRun.
Context `{Conversions}.

(** The run aborts whenever some column imputed by its mean is present
    and holds a text: the mean of such a column raises, and nothing is
    written. *)
Theorem pipeline_aborts_on_text_to_average (raw : DataFrame) (c : string) :
  In c (numeric_cols_initial ++ numeric_cols_remaining) ->
  has_column raw c = true ->
  existsb is_str (series raw c) = true ->
  pipeline raw = None.
Proof.
  intros Hin Hc Hs.
  unfold pipeline, clean.
  destruct (handle_missing raw) as [d1|] eqn:H1; [|reflexivity].
  exfalso.
  destruct (handle_missing_series raw d1 c H1 Hc) as (Hmean & _).
  destruct (Hmean Hin) as (m & Hm & _).
  apply mean_some in Hm as [Hno _]. congruence.
Qed.

(** After cleaning no identifier repeats, so a completed run never
    reports [empid_unique], provided [str] keeps apart the identifiers
    that de-duplication keeps apart. *)
Theorem empid_unique_never_reports_after_cleaning (raw : DataFrame)
    (out : Output) :
  pipeline raw = Some out ->
  str_faithful (series raw "EmpID") = true ->
  records_of "empid_unique" (validation_report out) = [].
Proof.
  intros Hrun Hf.
  destruct (pipeline_output raw out Hrun) as (df & Hclean & _ & _ & ->).
  change "empid_unique" with (rule_name empid_unique).
  rewrite records_of_validate;
    [|apply rules_names_NoDup|cbn [rules In]; tauto].
  apply empid_unique_silent. intros Hc.
  destruct (clean_spec raw df Hclean) as (He & _ & Hids & _).
  rewrite He in Hc. destruct (Hids Hc) as (ids & Hsub & Hd & ->).
  by apply (distinct_values_astype_str (series raw "EmpID")).
Qed.

Lemma filter_labelled (g : Value -> bool) c df :
  map fst (List.filter (fun lr => g (cell (snd lr) c)) (rows df))
  = map fst (List.filter (fun p => g (snd p)) (labelled c df)).
Proof.
  unfold labelled.
  induction (rows df) as [|lr l IH]; simpl; [reflexivity|].
  destruct (g (cell (snd lr) c)); simpl; by rewrite IH.
Qed.

Lemma filter_map_fst {A B : Type} (g : B -> bool) (f : B -> B)
    (l : list (A * B)) :
  map fst (List.filter (fun p => g (snd p))
             (map (fun p => (fst p, f (snd p))) l))
  = map fst (List.filter (fun p => g (f (snd p))) l).
Proof.
  induction l as [|p l IH]; simpl; [reflexivity|].
  destruct (g (f (snd p))); simpl; by rewrite IH.
Qed.

(** In a completed run on a dataset with an Age column the age rules are
    always evaluated: the ages are coerced to numbers first, so
    [age_range] reports every surviving row whose Age is missing, is not
    a number, or lies outside [16, 70], and [age_positive] every surviving
    row whose Age is missing, is not a number, or is not above 0. *)
Theorem pipeline_reports_every_unusable_age (raw : DataFrame)
    (out : Output) :
  pipeline raw = Some out -> has_column raw "Age" = true ->
  exists ages,
    ages `sublist_of` labelled "Age" raw /\
    labelled "Age" (final_csv out)
      = map (fun p => (fst p, to_numeric (snd p))) ages /\
    map v_index (records_of "age_range" (validation_report out)) =
      map fst (List.filter
                 (fun p => match to_numeric (snd p) with
                           | VNum q => Qlt_bool q 16 || Qlt_bool 70 q
                           | _ => true
                           end) ages) /\
    map v_index (records_of "age_positive" (validation_report out)) =
      map fst (List.filter
                 (fun p => match to_numeric (snd p) with
                           | VNum q => Qle_bool q 0
                           | _ => true
                           end) ages).
Proof.
  intros Hrun Hc.
  destruct (pipeline_output raw out Hrun) as (df & Hclean & _ & -> & ->).
  destruct (clean_spec raw df Hclean) as (_ & Ha & _ & Hages).
  destruct (Hages Hc) as (ages & Hsub & Hlab).
  exists ages. split; [exact Hsub|]. split; [exact Hlab|].
  assert (Hcol : has_column df "Age" = true) by (by rewrite Ha).
  assert (Hs : existsb is_str (series df "Age") = false).
  { rewrite series_labelled, Hlab, map_map. cbn [snd].
    rewrite <- map_map. apply to_numeric_no_str. }
  split.
  - change "age_range" with (rule_name age_range).
    rewrite (compare_rule_reports df age_range "Age"
               (fun q => Qle_bool 16 q && Qle_bool q 70)); auto;
      [|cbn [rules In]; tauto].
    set (g := fun v => match v with
                       | VNum q => negb (Qle_bool 16 q && Qle_bool q 70)
                       | _ => true
                       end).
    etrans; [apply (filter_labelled g)|]. rewrite Hlab.
    etrans; [apply (filter_map_fst g to_numeric)|].
    subst g. cbv beta. f_equal. apply List.filter_ext. intros p.
    destruct (to_numeric (snd p)); try reflexivity.
    unfold Qlt_bool. apply negb_andb.
  - change "age_positive" with (rule_name age_positive).
    rewrite (compare_rule_reports df age_positive "Age"
               (fun q => Qlt_bool 0 q)); auto;
      [|cbn [rules In]; tauto].
    set (g := fun v => match v with
                       | VNum q => negb (Qlt_bool 0 q)
                       | _ => true
                       end).
    etrans; [apply (filter_labelled g)|]. rewrite Hlab.
    etrans; [apply (filter_map_fst g to_numeric)|].
    subst g. cbv beta. f_equal. apply List.filter_ext. intros p.
    destruct (to_numeric (snd p)); try reflexivity.
    unfold Qlt_bool. apply negb_involutive.
Qed.

End WholeRun.

Lemma pipeline_aborts_on_text_to_average_witness :
  pipeline unread_rates = None.
Proof.
  apply (pipeline_aborts_on_text_to_average unread_rates "DailyRate").
  - by_decide_in.
  - vm_compute. reflexivity.
  - vm_compute. reflexivity.
Defined.

Lemma empid_unique_never_reports_after_cleaning_witness :
  exists out,
    pipeline staff_repeat_under_age = Some out /\
    index (final_csv out) = [0; 2] /\
    records_of "empid_unique" (validation_report out) = [].
Proof.
  eexists. split; [vm_compute; reflexivity|].
  split; [vm_compute; reflexivity|].
  apply (empid_unique_never_reports_after_cleaning staff_repeat_under_age);
    vm_compute; reflexivity.
Defined.

Lemma pipeline_reports_every_unusable_age_witness :
  exists out,
    pipeline staff_text_age = Some out /\
    exists ages,
      ages `sublist_of` labelled "Age" staff_text_age /\
      labelled "Age" (final_csv out)
        = map (fun p => (fst p, to_numeric (snd p))) ages /\
      map v_index (records_of "age_range" (validation_report out)) =
        map fst (List.filter
                   (fun p => match to_numeric (snd p) with
                             | VNum q => Qlt_bool q 16 || Qlt_bool 70 q
                             | _ => true
                             end) ages) /\
      map v_index (records_of "age_positive" (validation_report out)) =
        map fst (List.filter
                   (fun p => match to_numeric (snd p) with
                             | VNum q => Qle_bool q 0
                             | _ => true
                             end) ages).
Proof.
  eexists. split; [vm_compute; reflexivity|].
  apply (pipeline_reports_every_unusable_age staff_text_age);
    vm_compute; reflexivity.
Defined.

(** ** The columns and rows of the output *)

Lemma flag_loop_columns cs d d' :
  NoDup (map flag_col cs) ->
  (forall c, In c cs -> ~ In c (map flag_col cs)) ->
  for_each (fun col a => if has_column a col then detect_outliers_iqr a col
                         else Some a) cs d = Some d' ->
  columns d' =
  columns d ++ List.filter (fun f => negb (has_column d f))
                 (map flag_col (List.filter (has_column d) cs)).
Proof.
  revert d. induction cs as [|c0 cs IH]; intros d Hnd Hfresh Hrun;
    simpl in Hrun.
  - injection Hrun as <-. simpl. by rewrite app_nil_r.
  - simpl in Hnd. apply NoDup_cons in Hnd as [Hf0 Hnd].
    assert (Hfresh' : forall c, In c cs -> ~ In c (map flag_col cs)).
    { intros x Hx Hfx. apply (Hfresh x); [by right|]. simpl. by right. }
    cbn [List.filter].
    destruct (has_column d c0) eqn:Hc.
    + unfold detect_outliers_iqr in Hrun. rewrite Hc in Hrun.
      destruct (quantile (1 # 4) (series d c0)) as [Q1|]; [|discriminate].
      destruct (quantile (3 # 4) (series d c0)) as [Q3|]; [|discriminate].
      set (flags := map (outlier_flag (fence Q1 Q3)) (series d c0)) in *.
      assert (Hlen : length flags = length (rows d))
        by (subst flags; by rewrite length_map, series_length).
      rewrite (IH _ Hnd Hfresh' Hrun).
      assert (Hcs : List.filter (has_column (assign (flag_col c0) flags d)) cs
                    = List.filter (has_column d) cs).
      { apply List.filter_ext_in. intros c Hin.
        apply assign_has_column_other; [|exact Hlen].
        intros ->. apply (Hfresh (flag_col c0)); [by right|].
        simpl. by left. }
      rewrite Hcs.
      assert (Hfs : List.filter
                      (fun f => negb (has_column
                                        (assign (flag_col c0) flags d) f))
                      (map flag_col (List.filter (has_column d) cs))
                    = List.filter (fun f => negb (has_column d f))
                      (map flag_col (List.filter (has_column d) cs))).
      { apply List.filter_ext_in. intros f Hin. f_equal.
        apply assign_has_column_other; [|exact Hlen].
        intros ->. apply Hf0, list_elem_of_In.
        apply in_map_iff in Hin as (c & Hfc & Hcin).
        apply in_map_iff. exists c. split; [exact Hfc|].
        by apply filter_In in Hcin as [Hcin _]. }
      rewrite Hfs. unfold assign at 1. cbn [columns map List.filter].
      destruct (has_column d (flag_col c0)); cbn [negb].
      * reflexivity.
      * by rewrite <- app_assoc.
    + by apply IH.
Qed.

Section OutputShape.
Context `{Conversions}.

(** A completed run writes the input's columns in their order, followed
    by one flag column for each designated column that is present and had
    no flag column yet; its rows are rows of the input, in their order and
    under their labels; and the interim file equals the final one. *)
Theorem pipeline_output_shape (raw : DataFrame) (out : Output) :
  pipeline raw = Some out ->
  columns (final_csv out) =
    columns raw ++
    List.filter (fun f => negb (has_column raw f))
      (map flag_col (List.filter (has_column raw) numeric_cols_outliers)) /\
  index (final_csv out) `sublist_of` index raw /\
  interim_csv out = final_csv out.
Proof.
  intros Hrun.
  destruct (pipeline_output raw out Hrun) as (df & Hclean & -> & -> & _).
  split; [|split; [|reflexivity]]; revert Hclean; unfold clean;
    destruct (handle_missing raw) as [d1|] eqn:H1; try discriminate;
    destruct (remove_duplicates d1) as [d2|] eqn:H2; try discriminate;
    destruct (fix_types d2) as [d3|] eqn:H3; try discriminate;
    intros H4;
    pose proof (handle_missing_columns _ _ H1) as C1;
    pose proof (remove_duplicates_spec _ _ H2) as (C2 & S2 & _);
    pose proof (fix_types_columns _ _ H3) as C3.
  - destruct outlier_columns_apart as (Hnd & Hfresh).
    rewrite (flag_loop_columns _ _ _ Hnd Hfresh H4).
    assert (Hcols : columns d3 = columns raw) by congruence.
    assert (Hhas : forall c, has_column d3 c = has_column raw c)
      by (intros c; by apply has_column_columns).
    rewrite Hcols. f_equal.
    rewrite (List.filter_ext _ _ Hhas).
    apply List.filter_ext. intros f. by rewrite Hhas.
  - destruct (handle_missing_untouched _ _ H1) as (I1 & _).
    destruct (fix_types_spec _ _ H3) as ((I3 & _) & _).
    destruct (flag_outliers_untouched _ _ H4) as (I4 & _).
    rewrite I4, I3, <- I1. unfold index. by apply sublist_map.
Qed.

End OutputShape.

Lemma pipeline_output_shape_witness :
  exists out,
    pipeline incomes = Some out /\
    columns (final_csv out) =
      columns incomes ++
      List.filter (fun f => negb (has_column incomes f))
        (map flag_col
           (List.filter (has_column incomes) numeric_cols_outliers)) /\
    index (final_csv out) `sublist_of` index incomes /\
    interim_csv out = final_csv out.
Proof.
  eexists. split; [vm_compute; reflexivity|].
  apply (pipeline_output_shape incomes). vm_compute. reflexivity.
Defined.

(** ** [email_format], row by row *)

Lemma reported_records report name l :
  reported report name l <-> In l (map v_index (records_of name report)).
Proof.
  unfold reported, records_of. rewrite in_map_iff. split.
  - intros (v & Hin & Hr & Hi). exists v. split; [exact Hi|].
    apply filter_In. split; [exact Hin|]. by apply String.eqb_eq.
  - intros (v & Hi & Hin). apply filter_In in Hin as [Hin Hr].
    apply String.eqb_eq in Hr. by exists v.
Qed.

Section EmailRows.
Context `{Conversions}.

(** On a dataset with a WorkEmail column and distinct row labels, a row
    gets an [email_format] record exactly when the text of its WorkEmail
    cell is not of the shape local "@" domain "." rest with three
    non-empty parts free of "@". *)
Theorem email_format_reports_ill_formed_addresses (df : DataFrame)
    (i l : nat) (r : Row) :
  "WorkEmail" ∈ columns df -> NoDup (index df) ->
  rows df !! i = Some (l, r) ->
  (reported (validate df rules) "email_format" l <->
   ~ exists a d t,
       astype_str (cell r "WorkEmail")
         = VStr (a +:+ "@" +:+ d +:+ "." +:+ t) /\
       plain a /\ plain d /\ plain t).
Proof.
  intros Hc Hnd Hr. rewrite reported_records.
  change "email_format" with (rule_name email_format).
  rewrite records_of_validate;
    [|apply rules_names_NoDup|cbn [rules In]; tauto].
  rewrite rule_violations_verdicts, (verdicts_email_format df Hc),
    map_index_violation.
  assert (Hx : exists x, astype_str (cell r "WorkEmail") = VStr x)
    by (destruct (cell r "WorkEmail"); by eexists).
  destruct Hx as (x & Hx).
  rewrite (labels_where_in not_true (index df) _ i l
             (Some (fullmatch email_pattern x)) Hnd).
  - rewrite Hx. cbn [not_true]. split.
    + intros Hm (a & d & t & [= ->] & Hp).
      assert (Hok : fullmatch email_pattern
                      (a +:+ "@" +:+ d +:+ "." +:+ t) = true)
        by (apply email_pattern_language; by exists a, d, t).
      rewrite Hok in Hm. discriminate.
    + intros Hno. destruct (fullmatch email_pattern x) eqn:Hm;
        [|reflexivity].
      exfalso. apply Hno. apply email_pattern_language in Hm
        as (a & d & t & -> & Hp). by exists a, d, t.
  - by apply (index_lookup df i l r).
  - rewrite lookup_map, (series_lookup df "WorkEmail" i l r Hr).
    cbn [option_map]. by rewrite Hx.
Qed.

End EmailRows.

Lemma email_format_reports_ill_formed_addresses_witness :
  reported (validate contacts rules) "email_format" 1 <->
  ~ exists a d t,
      astype_str (cell (row_of [("EmpID", VStr "B"); ("WorkEmail", VStr "a@b")])
                    "WorkEmail")
        = VStr (a +:+ "@" +:+ d +:+ "." +:+ t) /\
      plain a /\ plain d /\ plain t.
Proof.
  apply (email_format_reports_ill_formed_addresses contacts 1 1
           (row_of [("EmpID", VStr "B"); ("WorkEmail", VStr "a@b")])).
  - right. left.
  - by_decide.
  - vm_compute. reflexivity.
Defined.

(** ** Education: imputed as text, coerced as a number *)

Lemma sublist_map_inv {A B : Type} (f : A -> B) (l : list B) (k : list A) :
  l `sublist_of` map f k ->
  exists k', k' `sublist_of` k /\ l = map f k'.
Proof.
  revert l. induction k as [|a k IH]; intros l Hs; simpl in Hs.
  - inversion Hs; subst. exists []. by split.
  - inversion Hs as [|x l1 l2 Hs'|x l1 l2 Hs']; subst.
    + destruct (IH _ Hs') as (k' & Hk & ->).
      exists (a :: k'). split; [by constructor|reflexivity].
    + destruct (IH _ Hs') as (k' & Hk & ->).
      exists k'. split; [by constructor|reflexivity].
Qed.

Section Education.
Context `{Conversions}.

(** Education is filled with the text "Unknown" in section 3 and coerced
    to a number in section 5.  Where "Unknown" is no number the coercion
    turns it back into a gap: the Education column of the output is the
    coerced Education column of the surviving input rows, as if it had
    never been imputed. *)
Theorem education_imputation_is_undone (raw : DataFrame) (out : Output) :
  pipeline raw = Some out ->
  has_column raw "Education" = true ->
  parse_float "Unknown" = None ->
  exists es,
    es `sublist_of` labelled "Education" raw /\
    labelled "Education" (final_csv out)
      = map (fun p => (fst p, to_numeric (snd p))) es.
Proof.
  intros Hrun Hc Hunknown.
  destruct (pipeline_output raw out Hrun) as (df & Hclean & _ & -> & _).
  revert Hclean. unfold clean.
  destruct (handle_missing raw) as [d1|] eqn:H1; [|discriminate].
  destruct (remove_duplicates d1) as [d2|] eqn:H2; [|discriminate].
  destruct (fix_types d2) as [d3|] eqn:H3; [|discriminate].
  intros H4.
  pose proof (handle_missing_columns _ _ H1) as C1.
  destruct (handle_missing_untouched _ _ H1) as (I1 & _).
  destruct (handle_missing_series raw d1 "Education" H1 Hc) as (_ & Htext).
  destruct Htext as (S1 & _); [by_decide_in|].
  pose proof (remove_duplicates_spec _ _ H2) as (C2 & S2 & _).
  pose proof (fix_types_spec _ _ H3) as ((I3 & _) & N3 & _).
  pose proof (flag_outliers_untouched _ _ H4) as U4.
  assert (L1 : labelled "Education" d1
               = map (fun p => (fst p, if isnull (snd p) then VStr "Unknown"
                                       else snd p))
                   (labelled "Education" raw)).
  { rewrite !labelled_combine, I1, S1. unfold fillna.
    apply (combine_map_r (fun v => if isnull v then VStr "Unknown" else v)). }
  assert (L2 : labelled "Education" d2 `sublist_of` labelled "Education" d1)
    by (unfold labelled; by apply sublist_map).
  rewrite L1 in L2. apply sublist_map_inv in L2 as (es & Hes & L2).
  exists es. split; [exact Hes|].
  rewrite (labelled_untouched _ "Education" _ _ U4) by not_listed.
  rewrite labelled_combine, I3, N3.
  - rewrite combine_map_r, <- labelled_combine, L2, map_map.
    apply map_ext. intros [l v]. cbn [fst snd]. f_equal.
    destruct v; cbn [isnull to_numeric]; try reflexivity.
    by rewrite Hunknown.
  - by_decide_in.
  - by rewrite (has_column_columns _ _ _ C2), (has_column_columns _ _ _ C1).
Qed.

End Education.

Lemma education_imputation_is_undone_witness :
  exists out,
    pipeline schooling = Some out /\
    series (final_csv out) "Education" = [VNum 3; VNull; VNum 2] /\
    exists es,
      es `sublist_of` labelled "Education" schooling /\
      labelled "Education" (final_csv out)
        = map (fun p => (fst p, to_numeric (snd p))) es.
Proof.
  eexists. split; [vm_compute; reflexivity|].
  split; [vm_compute; reflexivity|].
  apply (education_imputation_is_undone schooling); vm_compute; reflexivity.
Defined.

(** ** [empid_not_null], before cleaning *)

Lemma empid_not_null_reports_witness :
  map v_index (records_of "empid_not_null" (validate missing_id rules)) =
  map fst (List.filter (fun lr => isnull (cell (snd lr) "EmpID"))
             (rows missing_id)).
Proof.
  apply (empid_not_null_reports missing_id). left.
Defined.
